(** * Message controller of the chat backend: model and properties

    Shallow embedding of [backend/src/controllers/messageController.ts] and of
    the message router that mounts it.  The five handlers ([createMessage],
    [getMessagesByChannelId], [deleteMessage], [updateMessage],
    [toggleReaction]) are written in a small monad that threads the database
    and the list of effects performed so far, and that has the two ways a
    handler body can stop early: [return c.json(...)] and a thrown exception
    caught by the handler's [try]/[catch].

    Conventions.
    - An ObjectId is represented by the string [toString()] gives for it: 24
      hexadecimal digits in lower case.  A route or body value is a string of
      its own; the database casts it to the ObjectId [canonical] of it.
    - A collection is the list of its documents in insertion order.
    - JavaScript numbers produced by [parseInt] on a query string are exact
      integers or NaN. *)

From stdpp Require Import base option list gmap strings.
From Stdlib Require Import ZArith Lia Ascii Sorted.

Local Open Scope Z_scope.

(** ** Documents *)

Abbreviation ObjectId := string (only parsing).

(** One element of [message.reactions]. *)
Record Reaction := mkReaction {
  emoji : string;
  users : list ObjectId
}.

(** Modelled from the spec: the Message model (models/Message.ts) is not among
    the sources.  The fields are the ones the controller reads and writes
    ([_id], [channel], [sender], [content], [reactions], [createdAt]); the
    last-modified timestamp of the data model is the [updatedAt] that the
    schema's timestamps keep, set by the store whenever it writes a changed
    document; a message is created with no reactions. *)
Record Message := mkMessage {
  msg_id : ObjectId;
  channel : option ObjectId;
  sender : option ObjectId;
  content : string;
  reactions : list Reaction;
  createdAt : Z;
  updatedAt : Z
}.

(** The Channel schema, restricted to the paths the controller touches. *)
Record Channel := mkChannel {
  ch_id : ObjectId;
  server : ObjectId;
  messages : list ObjectId;
  senders : list ObjectId
}.

(** Modelled from the spec: the DiscordServer model is not among the sources;
    [createMessage] matches on [members.user] and [members.roles]. *)
Record Member := mkMember {
  user : ObjectId;
  roles : list string
}.

Record DiscordServer := mkServer {
  srv_id : ObjectId;
  members : list Member
}.

(** Modelled from the spec: the User model is not among the sources; a user
    document is an id with the public profile that [populate] copies into a
    returned message. *)
Record User := mkUser {
  user_id : ObjectId;
  profile : string
}.

(** A message after [.populate("sender")]: the sender reference is replaced by
    the user document, or by null when no such user exists. *)
Record PopulatedMessage := mkPopulated {
  pm_message : Message;
  pm_sender : option User
}.

#[global] Instance Reaction_eq_dec : EqDecision Reaction.
Proof. solve_decision. Defined.
#[global] Instance Message_eq_dec : EqDecision Message.
Proof. solve_decision. Defined.
#[global] Instance User_eq_dec : EqDecision User.
Proof. solve_decision. Defined.

Definition set_content (m : Message) (c : string) (t : Z) : Message :=
  mkMessage (msg_id m) (channel m) (sender m) c (reactions m) (createdAt m) t.

Definition set_reactions (m : Message) (rs : list Reaction) : Message :=
  mkMessage (msg_id m) (channel m) (sender m) (content m) rs
            (createdAt m) (updatedAt m).

Definition set_updatedAt (m : Message) (t : Z) : Message :=
  mkMessage (msg_id m) (channel m) (sender m) (content m) (reactions m)
            (createdAt m) t.

Definition set_messages (ch : Channel) (ms : list ObjectId) : Channel :=
  mkChannel (ch_id ch) (server ch) ms (senders ch).

Definition set_users (r : Reaction) (us : list ObjectId) : Reaction :=
  mkReaction (emoji r) us.

(** ** Responses, events and effects *)

(** The JSON values the handlers pass to [c.json]. *)
Inductive Json :=
| JError (error : string)              (* { error: ... } *)
| JInfo (message : string)             (* { message: ... } *)
| JMessage (m : Message)
| JMessages (ms : list PopulatedMessage).

Record Response := mkResponse {
  body : Json;
  status : Z
}.

Inductive Payload :=
| PMessage (m : Message)
| PId (id : string).

(** What a handler does to the outside world, in the order it does it. *)
Inductive Effect :=
| MessageQuery (filter_id : string)    (* findOne, findById, find *)
| MessageInsert (m : Message)          (* Message.create *)
| MessageRemove (id : ObjectId)        (* findByIdAndDelete *)
| MessageStore (m : Message)           (* findByIdAndUpdate, save *)
| ChannelQuery (id : ObjectId)         (* Channel.findById *)
| ChannelPush (ch msg snd : ObjectId)  (* $push messages, $addToSet senders *)
| ChannelPull (msg : ObjectId)         (* $pull messages *)
| ServerQuery (id : ObjectId)          (* DiscordServer.findOne *)
| Emit (room event : string) (p : Payload).

#[global] Instance Payload_eq_dec : EqDecision Payload.
Proof. solve_decision. Defined.
#[global] Instance Effect_eq_dec : EqDecision Effect.
Proof. solve_decision. Defined.

(** The database, the clock and id generator of the store, and the trace. *)
Record World := mkWorld {
  messageColl : list Message;
  channelColl : list Channel;
  serverColl : list DiscordServer;
  userColl : list User;
  now : Z;                 (* the time at which the request is served *)
  freshId : ObjectId;      (* the id the store issues to the next document *)
  trace : list Effect
}.

Definition with_messages (w : World) (ms : list Message) : World :=
  mkWorld ms (channelColl w) (serverColl w) (userColl w) (now w) (freshId w)
          (trace w).

Definition with_channels (w : World) (cs : list Channel) : World :=
  mkWorld (messageColl w) cs (serverColl w) (userColl w) (now w) (freshId w)
          (trace w).

Definition log_effect (e : Effect) (w : World) : World :=
  mkWorld (messageColl w) (channelColl w) (serverColl w) (userColl w) (now w)
          (freshId w) (trace w ++ [e]).

(** ** The handler monad *)

Inductive Outcome (A : Type) :=
| Value (a : A)              (* the statement completed *)
| Return (r : Response)      (* [return c.json(...)] *)
| Raise.                     (* an exception is propagating *)
Arguments Value {A} a.
Arguments Return {A} r.
Arguments Raise {A}.

Definition Act (A : Type) : Type := World → Outcome A * World.

#[global] Instance Act_ret : MRet Act := λ A a w, (Value a, w).

#[global] Instance Act_bind : MBind Act := λ A B f m w,
  match m w with
  | (Value a, w') => f a w'
  | (Return r, w') => (Return r, w')
  | (Raise, w') => (Raise, w')
  end.

Definition c_json {A} (j : Json) (code : Z) : Act A :=
  λ w, (Return (mkResponse j code), w).

Definition throw {A} : Act A := λ w, (Raise, w).

Definition try_catch {A} (block handler : Act A) : Act A := λ w,
  match block w with
  | (Raise, w') => handler w'
  | r => r
  end.

Definition effect (e : Effect) : Act unit := λ w, (Value tt, log_effect e w).

Definition get_world : Act World := λ w, (Value w, w).

(** A database operation that cannot fail: a result and the world after it. *)
Definition db_op {A} (f : World → A * World) : Act A :=
  λ w, let '(a, w') := f w in (Value a, w').

(** A handler always ends in a [return]; an exception that escapes it reaches
    the framework, which answers 500. *)
Definition respond (h : Act Empty_set) (w : World) : Response * World :=
  match h w with
  | (Value a, _) => match a with end
  | (Return r, w') => (r, w')
  | (Raise, w') => (mkResponse (JError "Internal Server Error") 500, w')
  end.

(** ** Identifiers and numbers *)

Definition is_hex_digit (a : Ascii.ascii) : bool :=
  let n := Ascii.nat_of_ascii a in
  ((48 <=? n)%nat && (n <=? 57)%nat)        (* 0-9 *)
  || ((97 <=? n)%nat && (n <=? 102)%nat)    (* a-f *)
  || ((65 <=? n)%nat && (n <=? 70)%nat).    (* A-F *)

(** [mongoose.Types.ObjectId.isValid] on a string: 24 hexadecimal digits.
    (The 12-byte strings that older drivers also accept are left out: no
    client sends them as ids.) *)
Definition isValid (s : string) : bool :=
  (String.length s =? 24)%nat
  && forallb is_hex_digit (String.list_ascii_of_string s).

(** [new ObjectId(s).toString()] for a string that [isValid] accepts: the
    same digits, the letters in lower case. *)
Definition lower_hex (a : Ascii.ascii) : Ascii.ascii :=
  let n := Ascii.nat_of_ascii a in
  if (65 <=? n)%nat && (n <=? 70)%nat then Ascii.ascii_of_nat (n + 32) else a.

Fixpoint canonical (s : string) : string :=
  match s with
  | String a s' => String (lower_hex a) (canonical s')
  | EmptyString => EmptyString
  end.

(** The same test on a value that may be [undefined]. *)
Definition isValidValue (v : option string) : bool :=
  match v with
  | Some s => isValid s
  | None => false
  end.

(** JavaScript truthiness of a string that may be [undefined]. *)
Definition truthy (v : option string) : bool :=
  match v with
  | Some s => negb (bool_decide (s = EmptyString))
  | None => false
  end.

(** [v || d] on such a value. *)
Definition or_default (v : option string) (d : string) : string :=
  if truthy v then default d v else d.

Inductive JsNum :=
| NaN
| Num (z : Z).

Definition js_sub (a b : JsNum) : JsNum :=
  match a, b with
  | Num x, Num y => Num (x - y)
  | _, _ => NaN
  end.

Definition js_mul (a b : JsNum) : JsNum :=
  match a, b with
  | Num x, Num y => Num (x * y)
  | _, _ => NaN
  end.

Definition is_white_space (a : Ascii.ascii) : bool :=
  let n := Ascii.nat_of_ascii a in
  (n =? 32)%nat || ((9 <=? n)%nat && (n <=? 13)%nat).

Fixpoint skip_white_space (s : string) : string :=
  match s with
  | String a s' => if is_white_space a then skip_white_space s' else s
  | EmptyString => s
  end.

Definition digit_value (radix : Z) (a : Ascii.ascii) : option Z :=
  let n := Z.of_nat (Ascii.nat_of_ascii a) in
  let d := if (48 <=? n) && (n <=? 57) then Some (n - 48)
           else if (97 <=? n) && (n <=? 122) then Some (n - 87)
           else if (65 <=? n) && (n <=? 90) then Some (n - 55)
           else None in
  match d with
  | Some v => if v <? radix then Some v else None
  | None => None
  end.

(** The digits at the front of [s], folded into [acc]; [None] while no digit
    has been read. *)
Fixpoint read_digits (radix : Z) (s : string) (acc : option Z) : option Z :=
  match s with
  | String a s' =>
      match digit_value radix a with
      | Some d => read_digits radix s' (Some (default 0 acc * radix + d))
      | None => acc
      end
  | EmptyString => acc
  end.

(** [parseInt(s)] with no radix argument. *)
Definition parseInt (s : string) : JsNum :=
  let s1 := skip_white_space s in
  let '(sign, s2) :=
    match s1 with
    | String "-"%char r => (-1, r)
    | String "+"%char r => (1, r)
    | _ => (1, s1)
    end in
  let '(radix, s3) :=
    match s2 with
    | String "0"%char (String "x"%char r) => (16, r)
    | String "0"%char (String "X"%char r) => (16, r)
    | _ => (10, s2)
    end in
  match read_digits radix s3 None with
  | Some n => Num (sign * n)
  | None => NaN
  end.

(** ** Requests *)

(** The [user] object of a reaction request; its [_id] may be missing. *)
Record UserRef := mkUserRef {
  ref_id : option string
}.

(** The fields of the JSON request body that some handler destructures. *)
Record Body := mkBody {
  b_content : option string;
  b_senderId : option string;
  b_emoji : string;
  b_user : option UserRef;
  b_conversationId : option string
}.

(** The part of Hono's [Context] the handlers use: [c.get("io")] (is the
    Socket.IO server set?), [c.req.param()], [c.req.query(k)] and
    [c.req.json()].  A context stands for a request whose body is a JSON
    object: [json] is what [c.req.json()] resolves to. *)
Record Context := mkContext {
  io : bool;
  param : gmap string string;
  query : gmap string string;
  json : Body
}.

(** ** Collections *)

Fixpoint update_first {A} (p : A → bool) (f : A → A) (l : list A) : list A :=
  match l with
  | [] => []
  | x :: l' => if p x then f x :: l' else x :: update_first p f l'
  end.

Fixpoint remove_first {A} (p : A → bool) (l : list A) : list A :=
  match l with
  | [] => []
  | x :: l' => if p x then l' else x :: remove_first p l'
  end.

Definition has_id (id : ObjectId) (m : Message) : bool :=
  bool_decide (msg_id m = id).

(** Casting a string to an ObjectId path of a filter or of a document: the
    ObjectId the string spells, or a CastError when it is not a valid id. *)
Definition cast_id (v : string) : Act ObjectId :=
  if isValid v then mret (canonical v) else throw.

(** An [undefined] filter value is sent to the database as null, which
    matches a document where the path is null or missing. *)
Definition cast_filter (v : option string) : Act (option ObjectId) :=
  match v with
  | Some s => id ← cast_id s; mret (Some id)
  | None => mret None
  end.

(** Does a message match the filter [{ _id: id, sender: actor }]? *)
Definition owned_by (id : ObjectId) (actor : option ObjectId) (m : Message)
  : bool :=
  has_id id m && bool_decide (sender m = actor).

(** [Message.findOne({ _id: id, sender: snd })] *)
Definition Message_findOne (id : string) (snd : option string)
  : Act (option Message) :=
  id' ← cast_id id;
  snd' ← cast_filter snd;
  effect (MessageQuery id');;
  w ← get_world;
  mret (List.find (owned_by id' snd') (messageColl w)).

(** [Message.findById(id)] *)
Definition Message_findById (id : string) : Act (option Message) :=
  id' ← cast_id id;
  effect (MessageQuery id');;
  w ← get_world;
  mret (List.find (has_id id') (messageColl w)).

(** [Message.findByIdAndDelete(id)]: the removed document, or null. *)
Definition Message_findByIdAndDelete (id : string) : Act (option Message) :=
  id' ← cast_id id;
  effect (MessageRemove id');;
  db_op (λ w, (List.find (has_id id') (messageColl w),
               with_messages w (remove_first (has_id id') (messageColl w)))).

(** [Message.findByIdAndUpdate(id, { content }, { new: true })]: the document
    after the update, or null. *)
Definition Message_findByIdAndUpdate (id : string) (c : string)
  : Act (option Message) :=
  id' ← cast_id id;
  db_op (λ w,
    match List.find (has_id id') (messageColl w) with
    | Some m =>
        let m' := set_content m c (now w) in
        (Some m',
         log_effect (MessageStore m')
           (with_messages w (update_first (has_id id') (λ _, m')
                                          (messageColl w))))
    | None => (None, log_effect (MessageQuery id') w)
    end).

(** [Message.create({ channel, sender, content })] *)
Definition Message_create (ch snd : string) (c : string) : Act Message :=
  ch' ← cast_id ch;
  snd' ← cast_id snd;
  db_op (λ w,
    let m := mkMessage (freshId w) (Some ch') (Some snd') c [] (now w) (now w) in
    (m, log_effect (MessageInsert m) (with_messages w (messageColl w ++ [m])))).

(** [message.save()] of a modified document: the schema's timestamps set
    [updatedAt], on the document in memory as in the store, as they do in
    [findByIdAndUpdate]. *)
Definition Message_save (m : Message) : Act Message :=
  db_op (λ w,
    let m' := set_updatedAt m (now w) in
    (m', log_effect (MessageStore m')
           (with_messages w (update_first (has_id (msg_id m)) (λ _, m')
                                          (messageColl w))))).

(** [Channel.findById(id)] *)
Definition Channel_findById (id : string) : Act (option Channel) :=
  id' ← cast_id id;
  effect (ChannelQuery id');;
  w ← get_world;
  mret (List.find (λ ch, bool_decide (ch_id ch = id')) (channelColl w)).

Definition addToSet (x : ObjectId) (l : list ObjectId) : list ObjectId :=
  if bool_decide (x ∈ l) then l else l ++ [x].

(** [Channel.findByIdAndUpdate(id, { $push: { messages: msg },
    $addToSet: { senders: snd } })] *)
Definition Channel_findByIdAndUpdate (id : string) (msg : ObjectId)
    (snd : string) : Act unit :=
  id' ← cast_id id;
  snd' ← cast_id snd;
  db_op (λ w,
    (tt, log_effect (ChannelPush id' msg snd')
           (with_channels w
              (update_first (λ ch, bool_decide (ch_id ch = id'))
                 (λ ch, mkChannel (ch_id ch) (server ch) (messages ch ++ [msg])
                                  (addToSet snd' (senders ch)))
                 (channelColl w))))).

(** [$pull]: every occurrence of the value leaves the array. *)
Definition pull (x : ObjectId) (l : list ObjectId) : list ObjectId :=
  List.filter (λ y, negb (bool_decide (y = x))) l.

(** [Channel.updateOne({ messages: msg }, { $pull: { messages: msg } })]: the
    first channel whose list holds the id is updated. *)
Definition Channel_updateOne (msg : string) : Act unit :=
  msg' ← cast_id msg;
  db_op (λ w,
    (tt, log_effect (ChannelPull msg')
           (with_channels w
              (update_first (λ ch, bool_decide (msg' ∈ messages ch))
                 (λ ch, set_messages ch (pull msg' (messages ch)))
                 (channelColl w))))).

Definition can_send (snd : ObjectId) (mb : Member) : bool :=
  bool_decide (user mb = snd) && bool_decide ("send messages"%string ∈ roles mb).

(** [DiscordServer.findOne({ _id: srv, members: { $elemMatch:
    { user: snd, roles: "send messages" } } })] *)
Definition DiscordServer_findOne (srv : ObjectId) (snd : string)
  : Act (option DiscordServer) :=
  snd' ← cast_id snd;
  effect (ServerQuery srv);;
  w ← get_world;
  mret (List.find (λ s, bool_decide (srv_id s = srv)
                        && existsb (can_send snd') (members s))
                  (serverColl w)).

(** Stable insertion sort, newest first: [.sort({ createdAt: -1 })]. *)
Fixpoint insert_desc (m : Message) (l : list Message) : list Message :=
  match l with
  | [] => [m]
  | x :: l' => if createdAt x <=? createdAt m then m :: l
               else x :: insert_desc m l'
  end.

Fixpoint sort_desc (l : list Message) : list Message :=
  match l with
  | [] => []
  | m :: l' => insert_desc m (sort_desc l')
  end.

(** [.populate("sender")] on one message. *)
Definition populate (us : list User) (m : Message) : PopulatedMessage :=
  mkPopulated m
    (s ← sender m; List.find (λ u, bool_decide (user_id u = s)) us).

(** [.skip(n)]: the database rejects a negative or NaN count. *)
Definition cursor_skip {A} (n : JsNum) (l : list A) : option (list A) :=
  match n with
  | Num z => if z <? 0 then None else Some (drop (Z.to_nat z) l)
  | NaN => None
  end.

(** [.limit(n)]: 0 means no limit, a negative count is taken in absolute
    value, NaN is rejected. *)
Definition cursor_limit {A} (n : JsNum) (l : list A) : option (list A) :=
  match n with
  | Num z => if z =? 0 then Some l else Some (take (Z.to_nat (Z.abs z)) l)
  | NaN => None
  end.

(** [Message.find({ channel }).sort({ createdAt: -1 }).skip(skip)
    .limit(limit).populate("sender")] *)
Definition Message_find (ch : string) (skip limit : JsNum)
  : Act (list PopulatedMessage) :=
  ch' ← cast_id ch;
  effect (MessageQuery ch');;
  w ← get_world;
  let matching :=
    List.filter (λ m, bool_decide (channel m = Some ch')) (messageColl w) in
  match cursor_skip skip (sort_desc matching) ≫= cursor_limit limit with
  | Some page => mret (populate (userColl w) <$> page)
  | None => throw
  end.

(** [io.to(room).emit(event, payload)]; a TypeError when [io] is undefined. *)
Definition emit (c : Context) (room event : string) (p : Payload) : Act unit :=
  if io c then effect (Emit room event p) else throw.

(** ** The handlers *)

Definition createMessage (c : Context) : Act Empty_set :=
  try_catch
    (if negb (io c) then c_json (JError "Socket.IO instance not available") 500
     else
       let channelId := param c !! "channelId" in
       let content := b_content (json c) in
       let senderId := b_senderId (json c) in
       if negb (truthy channelId) || negb (truthy senderId)
          || negb (truthy content)
       then c_json (JError "Missing required fields") 400
       else if negb (isValidValue channelId) || negb (isValidValue senderId)
       then c_json (JError "Invalid ID format") 400
       else
         let channelId := default EmptyString channelId in
         let senderId := default EmptyString senderId in
         let content := default EmptyString content in
         channel ← Channel_findById channelId;
         match channel with
         | None => c_json (JError "Channel not found") 404
         | Some channel =>
             canUserSendMessages ←
               DiscordServer_findOne (server channel) senderId;
             match canUserSendMessages with
             | None =>
                 c_json (JError "You do not have permission to send messages")
                        403
             | Some _ =>
                 newMessage ← Message_create channelId senderId content;
                 emit c channelId "message" (PMessage newMessage);;
                 Channel_findByIdAndUpdate channelId (msg_id newMessage)
                                           senderId;;
                 c_json (JMessage newMessage) 201
             end
         end)
    (c_json (JError "Failed to create message") 500).

Definition getMessagesByChannelId (c : Context) : Act Empty_set :=
  let channelId := param c !! "channelId" in
  let page := parseInt (or_default (query c !! "page") "1") in
  let limit := parseInt (or_default (query c !! "limit") "50") in
  let skip := js_mul (js_sub page (Num 1)) limit in
  if negb (truthy channelId)
  then c_json (JError "Channel ID is required") 400
  else if negb (isValidValue channelId)
  then c_json (JError "Invalid channel ID format") 400
  else
    try_catch
      (messages ← Message_find (default EmptyString channelId) skip limit;
       if (length messages =? 0)%nat
       then c_json (JInfo "No messages found for this channel") 404
       else c_json (JMessages messages) 200)
      (c_json (JError "Failed to fetch messages") 500).

Definition deleteMessage (c : Context) : Act Empty_set :=
  let messageId := param c !! "messageId" in
  let user := param c !! "user" in
  if negb (truthy messageId)
  then c_json (JError "Message ID is required") 400
  else if negb (isValidValue messageId)
  then c_json (JError "Invalid message ID format") 400
  else
    let messageId := default EmptyString messageId in
    try_catch
      (canDeleteMessage ← Message_findOne messageId user;
       match canDeleteMessage with
       | None =>
           c_json (JError "You do not have permission to delete messages") 403
       | Some _ =>
           deletedMessage ← Message_findByIdAndDelete messageId;
           match deletedMessage with
           | None => c_json (JError "Message not found") 404
           | Some deletedMessage =>
               match channel deletedMessage with
               | None => c_json (JError "Invalid channel ID") 400
               | Some channelIdString =>
                   emit c channelIdString "messageDeleted" (PId messageId);;
                   Channel_updateOne messageId;;
                   c_json (JInfo "Message deleted successfully") 200
               end
           end
       end)
      (c_json (JError "Failed to delete message") 500).

Definition updateMessage (c : Context) : Act Empty_set :=
  let messageId := param c !! "messageId" in
  let userId := param c !! "userId" in
  if negb (truthy messageId)
  then c_json (JError "Message ID is required") 400
  else if negb (isValidValue messageId) || negb (isValidValue userId)
  then c_json (JError "Invalid message ID format or user ID format") 400
  else
    let messageId := default EmptyString messageId in
    let content := b_content (json c) in
    if negb (truthy content)
    then c_json (JError "Content is required") 400
    else
      let content := default EmptyString content in
      try_catch
        (canUpdateMessage ← Message_findOne messageId userId;
         match canUpdateMessage with
         | None =>
             c_json (JError "You do not have permission to update messages")
                    403
         | Some _ =>
             updatedMessage ← Message_findByIdAndUpdate messageId content;
             match updatedMessage with
             | None => c_json (JError "Message not found") 404
             | Some updatedMessage =>
                 match channel updatedMessage with
                 | None => c_json (JError "Invalid channel ID") 400
                 | Some channelIdString =>
                     emit c channelIdString "messageUpdated"
                          (PMessage updatedMessage);;
                     c_json (JMessage updatedMessage) 200
                 end
             end
         end)
        (c_json (JError "Failed to update message") 500).

(** [user._id.toString()]: a TypeError when [user] or its [_id] is
    undefined. *)
Definition user_id_string (u : option UserRef) : Act string :=
  match u ≫= ref_id with
  | Some s => mret s
  | None => throw
  end.

(** The body of [toggleReaction] between the lookup of the message and
    [message.save()], on the array [message.reactions].  [userId] is the
    string the request body carries: the search for the user compares the
    [toString()] of each stored id with that string as it is, while pushing
    it casts it to an ObjectId: [None] is the CastError of an id that is not
    valid. *)
Definition toggle (reactions : list Reaction) (emoji' : string)
    (userId : string) : option (list Reaction) :=
  match list_find (λ r, emoji r = emoji') reactions with
  | Some (reactionIndex, reaction) =>
      match list_find (λ u, u = userId) (users reaction) with
      | Some (userIndex, _) =>
          let users' := delete userIndex (users reaction) in
          if (length users' =? 0)%nat
          then Some (delete reactionIndex reactions)
          else Some (<[reactionIndex := set_users reaction users']> reactions)
      | None =>
          if isValid userId
          then Some (<[reactionIndex :=
                         set_users reaction
                           (users reaction ++ [canonical userId])]>
                       reactions)
          else None
      end
  | None =>
      if isValid userId
      then Some (reactions ++ [mkReaction emoji' [canonical userId]])
      else None
  end.

Definition toggleReaction (c : Context) : Act Empty_set :=
  let messageId := param c !! "messageId" in
  let emoji := b_emoji (json c) in
  let user := b_user (json c) in
  let conversationId := b_conversationId (json c) in
  if negb (isValidValue messageId) || negb (isValidValue conversationId)
  then c_json (JError "Invalid ID format") 400
  else
    let messageId := default EmptyString messageId in
    let conversationId := default EmptyString conversationId in
    try_catch
      (message ← Message_findById messageId;
       match message with
       | None => c_json (JError "Message not found") 404
       | Some message =>
           userIdString ← user_id_string user;
           match toggle (reactions message) emoji userIdString with
           | None => throw
           | Some reactions' =>
               let message := set_reactions message reactions' in
               message ← Message_save message;
               emit c conversationId "reactionUpdated" (PMessage message);;
               c_json (JInfo "Reaction updated successfully") 200
           end
       end)
      (c_json (JError "Failed to add reaction") 500).

(** ** The router *)

Inductive Method := GET | POST | PUT | DELETE.

(** An incoming request: the path is the list of its segments. *)
Record Request := mkRequest {
  method : Method;
  path : list string;
  req_query : gmap string string;
  req_json : Body;
  req_io : bool
}.

(** The context a route hands to its handler: [c.req.param()] holds exactly
    the parameters named in the route pattern. *)
Definition bind_param (r : Request) (name value : string) : Context :=
  mkContext (req_io r) {[ name := value ]} (req_query r) (req_json r).

#[global] Instance Method_eq_dec : EqDecision Method.
Proof. solve_decision. Defined.

Definition matches (r : Request) (m : Method) (seg name : string) : bool :=
  bool_decide (method r = m) && bool_decide (seg = name).

(** [messageRouter]: the handler and context a request is dispatched to, or
    [None] when no route matches.  Every route is one fixed segment followed
    by one [:name] segment, which matches any non-empty segment. *)
Definition messageRouter (r : Request) : option (Act Empty_set) :=
  match path r with
  | [seg; v] =>
      if bool_decide (v = EmptyString) then None
      else if matches r GET seg "get-messages"
      then Some (getMessagesByChannelId (bind_param r "channelId" v))
      else if matches r POST seg "create-message"
      then Some (createMessage (bind_param r "channelId" v))
      else if matches r DELETE seg "delete-message"
      then Some (deleteMessage (bind_param r "messageId" v))
      else if matches r PUT seg "update-message"
      then Some (updateMessage (bind_param r "messageId" v))
      else if matches r PUT seg "add-reaction"
      then Some (toggleReaction (bind_param r "messageId" v))
      else None
  | _ => None
  end.

(** Serving a request: the response and the world after it. *)
Definition serve (r : Request) (w : World) : option (Response * World) :=
  h ← messageRouter r; Some (respond h w).

(** ** Sample data

    A server with one text channel [idC]; [idS] may send messages there, [idU]
    is another user.  The channel holds five messages of [idS], created in the
    order [m1] ... [m5] at times 1 ... 5. *)

Definition idC : ObjectId := "cccccccccccccccccccccccc".
Definition idS : ObjectId := "aaaaaaaaaaaaaaaaaaaaaaaa".
Definition idU : ObjectId := "bbbbbbbbbbbbbbbbbbbbbbbb".
Definition idSrv : ObjectId := "dddddddddddddddddddddddd".
Definition idNew : ObjectId := "000000000000000000000009".
Definition idGone : ObjectId := "000000000000000000000007".

(** The ids of [idS] and [idC] as a client may send them: the same
    ObjectIds, their letters in upper case. *)
Definition idS_upper : string := "AAAAAAAAAAAAAAAAAAAAAAAA".
Definition idC_upper : string := "CCCCCCCCCCCCCCCCCCCCCCCC".

Definition sample_message (id : ObjectId) (t : Z) : Message :=
  mkMessage id (Some idC) (Some idS) "hi" [] t t.

Definition m1 := sample_message "000000000000000000000001" 1.
Definition m2 := sample_message "000000000000000000000002" 2.
Definition m3 := sample_message "000000000000000000000003" 3.
Definition m4 := sample_message "000000000000000000000004" 4.
Definition m5 := sample_message "000000000000000000000005" 5.

Definition sample_servers : list DiscordServer :=
  [mkServer idSrv [mkMember idS ["send messages"%string];
                   mkMember idU ["read messages"%string]]].

Definition sample_users : list User := [mkUser idS "S"; mkUser idU "U"].

Definition sample_world : World :=
  mkWorld [m1; m2; m3; m4; m5]
          [mkChannel idC idSrv (msg_id <$> [m1; m2; m3; m4; m5]) [idS]]
          sample_servers sample_users 100 idNew [].

(** The same server just after the channel was created. *)
Definition empty_channel_world : World :=
  mkWorld [] [mkChannel idC idSrv [] []] sample_servers sample_users 100 idNew
          [].

(** A message of [idS] that [idS] reacted to with one symbol and [idU] with
    another. *)
Definition reacted_message : Message :=
  set_reactions m1 [mkReaction "thumbsup" [idS]; mkReaction "heart" [idU]].

Definition reacted_world : World :=
  mkWorld [reacted_message] [mkChannel idC idSrv [msg_id m1] [idS]]
          sample_servers sample_users 100 idNew [].

Definition no_body : Body := mkBody None None EmptyString None None.

Definition content_body (text : string) (snd : option string) : Body :=
  mkBody (Some text) snd EmptyString None None.

Definition reaction_body (sym : string) (actor feed : string) : Body :=
  mkBody None None sym (Some (mkUserRef (Some actor))) (Some feed).

(** Contexts as the routes build them, with the Socket.IO server set. *)
Definition reaction_ctx (messageId sym actor feed : string) : Context :=
  mkContext true {[ "messageId"%string := messageId ]} ∅
            (reaction_body sym actor feed).

Definition list_ctx (channelId : string) (q : gmap string string) : Context :=
  mkContext true {[ "channelId"%string := channelId ]} q no_body.

Definition create_ctx (channelId text snd : string) : Context :=
  mkContext true {[ "channelId"%string := channelId ]} ∅
            (content_body text (Some snd)).

(** A context in which the actor reached the handler as a route parameter. *)
Definition actor_ctx (name messageId actor : string) (b : Body) : Context :=
  mkContext true {[ "messageId"%string := messageId; name := actor ]} ∅ b.

(** ** Derived notions used in the statements *)

(** The state after the same reaction request is served twice in a row. *)
Definition toggle_twice (c : Context) (w : World) : World :=
  (respond (toggleReaction c) (respond (toggleReaction c) w).2).2.

Definition is_index_update (e : Effect) : bool :=
  match e with
  | ChannelPush _ _ _ | ChannelPull _ => true
  | _ => false
  end.

Definition is_emit (e : Effect) : bool :=
  match e with
  | Emit _ _ _ => true
  | _ => false
  end.

(** In a trace, every broadcast comes after some Channel Index update. *)
Definition index_before_emit (t : list Effect) : Prop :=
  ∀ i e, t !! i = Some e → is_emit e = true →
    ∃ j e', (j < i)%nat ∧ t !! j = Some e' ∧ is_index_update e' = true.

(** The ids of the messages a response carries. *)
Definition returned_ids (r : Response) : list ObjectId :=
  match body r with
  | JMessages ms => (msg_id ∘ pm_message) <$> ms
  | _ => []
  end.

(** Messages listed in the order of their creation. *)
Definition created_in_order (ms : list Message) : Prop :=
  StronglySorted (λ a b, createdAt a < createdAt b) ms.

(** The messages of a channel, in collection order. *)
Definition channel_messages (ch : ObjectId) (w : World) : list Message :=
  List.filter (λ m, bool_decide (channel m = Some ch)) (messageColl w).

(** Page [p] of size [s] of a list: positions (p-1)*s+1 to p*s. *)
Definition page_slice {A} (p s : Z) (l : list A) : list A :=
  take (Z.to_nat s) (drop (Z.to_nat ((p - 1) * s)) l).

(** ** The Reaction Ledger as the spec describes it *)

(** The ledger a reaction array stands for: each symbol with the set of the
    actors of its (first) entry. *)
Definition ledger_entry (r : Reaction) : string * gset ObjectId :=
  (emoji r, list_to_set (users r)).

Definition ledger_of (rs : list Reaction) : gmap string (gset ObjectId) :=
  list_to_map (ledger_entry <$> rs).

(** The toggle in the spec's words: absent, create the entry with the actor as
    sole member; present and the actor a member, remove the actor and delete
    the entry when its member set becomes empty; present and the actor not a
    member, add the actor. *)
Definition spec_toggle (L : gmap string (gset ObjectId)) (sym : string)
    (a : ObjectId) : gmap string (gset ObjectId) :=
  match L !! sym with
  | None => <[sym := {[a]}]> L
  | Some s =>
      if decide (a ∈ s)
      then if decide (s ∖ {[a]} = ∅) then delete sym L
           else <[sym := s ∖ {[a]}]> L
      else <[sym := s ∪ {[a]}]> L
  end.

(** A reaction array that stands for a ledger as the spec describes it: one
    entry per symbol, no actor twice in an entry, no entry without actors. *)
Record ledger_wf (rs : list Reaction) : Prop := mk_ledger_wf {
  wf_symbols : NoDup (emoji <$> rs);
  wf_actors : Forall (λ r, NoDup (users r)) rs;
  wf_nonempty : Forall (λ r, users r ≠ []) rs
}.

(** An id in the spelling of the store: well-formed and in lower case. *)
Definition stored_id (u : ObjectId) : Prop :=
  isValid u = true ∧ canonical u = u.

(** What every request keeps true of a stored reaction array: no entry
    without actors, and every actor of an entry an id in the spelling of the
    store. *)
Definition ledger_ok (rs : list Reaction) : Prop :=
  Forall (λ r, users r ≠ []) rs ∧ Forall (λ r, Forall stored_id (users r)) rs.

Definition ledgers_ok (w : World) : Prop :=
  Forall (λ m, ledger_ok (reactions m)) (messageColl w).

(** No stored entry has an empty actor set. *)
Definition no_empty_entry (w : World) : Prop :=
  Forall (λ m, Forall (λ r, users r ≠ []) (reactions m)) (messageColl w).

(** The worlds the server can be in: it starts with no message, time passes
    and ids are issued between requests, and requests are served. *)
Inductive reachable : World → Prop :=
| reachable_start w :
    messageColl w = [] → reachable w
| reachable_env w t id :
    reachable w →
    reachable (mkWorld (messageColl w) (channelColl w) (serverColl w)
                       (userColl w) t id (trace w))
| reachable_serve r w resp w' :
    reachable w → serve r w = Some (resp, w') → reachable w'.

(** The three ways a toggle can go, on the array split around the first
    entry of the symbol.  [a] is the actor id as the request spells it, which
    is what the stored members are compared with; [b] is the ObjectId that
    is stored when the actor is added. *)
Inductive toggled (sym : string) (a : string) (b : ObjectId)
    (rs rs' : list Reaction) : Prop :=
| toggled_created :
    Forall (λ r, ¬ emoji r = sym) rs →
    rs' = rs ++ [mkReaction sym [b]] →
    toggled sym a b rs rs'
| toggled_removed pre r post j :
    rs = pre ++ r :: post →
    Forall (λ x, ¬ emoji x = sym) pre → emoji r = sym →
    users r !! j = Some a →
    rs' = (if decide (delete j (users r) = []) then pre ++ post
           else pre ++ set_users r (delete j (users r)) :: post) →
    toggled sym a b rs rs'
| toggled_added pre r post :
    rs = pre ++ r :: post →
    Forall (λ x, ¬ emoji x = sym) pre → emoji r = sym →
    a ∉ users r →
    rs' = pre ++ set_users r (users r ++ [b]) :: post →
    toggled sym a b rs rs'.

(** ** Derived notions used in the further properties *)

#[global] Instance Channel_eq_dec : EqDecision Channel.
Proof. solve_decision. Defined.

(** What a request added to the trace, and the broadcasts among it. *)
Definition new_effects (w w' : World) : list Effect :=
  drop (length (trace w)) (trace w').

Definition emitted (w w' : World) : list Effect :=
  List.filter is_emit (new_effects w w').

(** The four collections are the same in both worlds. *)
Definition same_store (w w' : World) : Prop :=
  messageColl w' = messageColl w ∧ channelColl w' = channelColl w ∧
  serverColl w' = serverColl w ∧ userColl w' = userColl w.

(** The actor is among the reactors of the symbol. *)
Definition reacted (rs : list Reaction) (sym : string) (a : ObjectId) : Prop :=
  ∃ s, ledger_of rs !! sym = Some s ∧ a ∈ s.

(** The parts of a message that no handler rewrites. *)
Definition identity_of (m : Message)
  : ObjectId * option ObjectId * option ObjectId * Z :=
  (msg_id m, channel m, sender m, createdAt m).

(** A message without its reactions and its last-modified time. *)
Definition outside_reactions (m : Message)
  : ObjectId * option ObjectId * option ObjectId * string * Z :=
  (msg_id m, channel m, sender m, content m, createdAt m).

(** The message [Message.create] builds for a create request: the channel
    and the sender are the ObjectIds the strings of the request are cast
    to. *)
Definition created_message (w : World) (ch snd text : string) : Message :=
  mkMessage (freshId w) (Some (canonical ch)) (Some (canonical snd)) text []
            (now w) (now w).

(** [$push] and [$addToSet] of a create request on one channel. *)
Definition index_created (msg snd : ObjectId) (ch : Channel) : Channel :=
  mkChannel (ch_id ch) (server ch) (messages ch ++ [msg])
            (addToSet snd (senders ch)).

(** [$pull] of a delete request on one channel. *)
Definition index_deleted (msg : ObjectId) (ch : Channel) : Channel :=
  set_messages ch (pull msg (messages ch)).

(** Is the channel the one with this id; does it list this message? *)
Definition is_channel (id : ObjectId) (ch : Channel) : bool :=
  bool_decide (ch_id ch = id).

Definition lists_message (msg : ObjectId) (ch : Channel) : bool :=
  bool_decide (msg ∈ messages ch).

(** The sender may send messages in the server: some membership of the
    sender there has the role. *)
Definition may_send (srv : ObjectId) (snd : ObjectId) (w : World) : Prop :=
  ∃ s mb, s ∈ serverColl w ∧ srv_id s = srv ∧ mb ∈ members s ∧
    user mb = snd ∧ "send messages"%string ∈ roles mb.

(** Newest first: no message is older than one that follows it. *)
Definition newest_first (ms : list Message) : Prop :=
  StronglySorted (λ a b, createdAt b ≤ createdAt a) ms.

(** The id of the message a delete, update or reaction request works on: the
    ObjectId its [messageId] parameter is cast to. *)
Definition target (c : Context) : ObjectId :=
  canonical (default EmptyString (param c !! "messageId")).

(** Requests as a client sends them, with the Socket.IO server set. *)
Definition create_request (ch text snd : string) : Request :=
  mkRequest POST ["create-message"%string; ch] ∅ (content_body text (Some snd))
            true.

Definition reaction_request (msg sym actor feed : string) : Request :=
  mkRequest PUT ["add-reaction"%string; msg] ∅ (reaction_body sym actor feed)
            true.

Definition list_request (ch : string) (q : gmap string string) : Request :=
  mkRequest GET ["get-messages"%string; ch] q no_body true.

(** A message that lost its channel reference. *)
Definition orphan_world : World :=
  mkWorld [mkMessage (msg_id m1) None (Some idS) "hi" [] 1 1]
          [mkChannel idC idSrv [msg_id m1] [idS]]
          sample_servers sample_users 100 idNew [].

(** * Properties *)

(** ** Identifiers and numbers *)

Example isValid_hex : isValid "507f1f77bcf86cd799439011" = true.
Proof. reflexivity. Qed.

Example isValid_short : isValid "general" = false.
Proof. reflexivity. Qed.

Example parseInt_decimal : parseInt "50" = Num 50.
Proof. reflexivity. Qed.

Example parseInt_prefix : parseInt " -12px" = Num (-12).
Proof. reflexivity. Qed.

Example parseInt_hex : parseInt "0x1f" = Num 31.
Proof. reflexivity. Qed.

Example parseInt_no_digit : parseInt "abc" = NaN.
Proof. reflexivity. Qed.

(** Casting leaves an id in the spelling of the store as it is, and keeps a
    well-formed id well-formed. *)
Lemma lower_hex_idem a : lower_hex (lower_hex a) = lower_hex a.
Proof. by destruct a as [[] [] [] [] [] [] [] []]. Qed.

Lemma is_hex_digit_lower a : is_hex_digit (lower_hex a) = is_hex_digit a.
Proof. by destruct a as [[] [] [] [] [] [] [] []]. Qed.

Lemma canonical_idem s : canonical (canonical s) = canonical s.
Proof.
  induction s as [|a s IH]; simpl; [done|]. by rewrite lower_hex_idem, IH.
Qed.

Lemma isValid_canonical s : isValid (canonical s) = isValid s.
Proof.
  unfold isValid. f_equal.
  - f_equal. induction s as [|a s IH]; simpl; [done|]. by rewrite IH.
  - induction s as [|a s IH]; simpl; [done|].
    by rewrite is_hex_digit_lower, IH.
Qed.

Example canonical_upper :
  canonical "507F1F77BCF86CD799439011" = "507f1f77bcf86cd799439011"%string.
Proof. reflexivity. Qed.

Example isValid_upper : isValid "507F1F77BCF86CD799439011" = true.
Proof. reflexivity. Qed.

(** ** Lists and lookups *)

Section list_facts.
Context {A : Type}.
Implicit Types (l : list A) (p : A → bool).

Lemma list_find_split (P : A → Prop) `{∀ x, Decision (P x)} l i x :
  list_find P l = Some (i, x) →
  ∃ l1 l2, l = l1 ++ x :: l2 ∧ length l1 = i ∧ Forall (λ y, ¬ P y) l1 ∧ P x.
Proof.
  intros (Hi & HP & Hbefore)%list_find_Some.
  exists (take i l), (drop (S i) l). split_and!.
  - by rewrite take_drop_middle.
  - apply length_take_le. apply lookup_lt_Some in Hi. lia.
  - apply Forall_lookup. intros j y Hj.
    assert (j < i)%nat as Hlt.
    { apply lookup_lt_Some in Hj. rewrite length_take in Hj. lia. }
    rewrite lookup_take_lt in Hj by done. eauto.
  - done.
Qed.

Lemma find_update_first p (f : A → A) l x :
  List.find p l = Some x → p (f x) = true →
  List.find p (update_first p f l) = Some (f x).
Proof.
  induction l as [|y l IH]; simpl; [done|].
  destruct (p y) eqn:Hy.
  - intros [= ->] Hfx. simpl. by rewrite Hfx.
  - intros Hx Hfx. simpl. rewrite Hy. auto.
Qed.

Lemma find_remove_first p l x :
  List.find p l = Some x → NoDup l → (∀ y, y ∈ l → p y = true → y = x) →
  List.find p (remove_first p l) = None.
Proof.
  induction l as [|y l IH]; simpl; [done|].
  destruct (p y) eqn:Hy.
  - intros [= ->] [Hnotin Hnd]%NoDup_cons Huniq.
    destruct (List.find p l) as [z|] eqn:Hz; [|done].
    apply List.find_some in Hz as [Hin Hpz].
    apply list_elem_of_In in Hin.
    assert (z = x) as -> by (apply Huniq; [by right|done]). done.
  - intros Hx [Hnotin Hnd]%NoDup_cons Huniq. simpl. rewrite Hy.
    apply IH; [done..|]. intros z Hz. apply Huniq. by right.
Qed.

Lemma Forall_update_first (Q : A → Prop) p (f : A → A) l :
  Forall Q l → (∀ x, x ∈ l → p x = true → Q (f x)) →
  Forall Q (update_first p f l).
Proof.
  induction 1 as [|y l Hy Hl IH]; simpl; intros Hf; [done|].
  destruct (p y) eqn:Hpy.
  - constructor; [|done]. apply Hf; [by left|done].
  - constructor; [done|]. apply IH. intros x Hx. apply Hf. by right.
Qed.

Lemma Forall_middle (Q : A → Prop) (pre post : list A) x :
  Forall Q (pre ++ x :: post) → Forall Q pre ∧ Q x ∧ Forall Q post.
Proof. rewrite Forall_app, Forall_cons. tauto. Qed.

Lemma Forall_remove_first (Q : A → Prop) p l :
  Forall Q l → Forall Q (remove_first p l).
Proof.
  induction 1 as [|y l Hy Hl IH]; simpl; [done|].
  destruct (p y); [done|]. by constructor.
Qed.
End list_facts.

(** ** The reaction array and the ledger it stands for *)

Section ledger_facts.
Implicit Types (rs pre post : list Reaction) (r : Reaction).
Implicit Types (sym : string) (a : ObjectId).

Lemma ledger_of_cons r rs :
  ledger_of (r :: rs) = <[emoji r := list_to_set (users r)]> (ledger_of rs).
Proof. reflexivity. Qed.

Lemma ledger_of_app pre post : ledger_of (pre ++ post) = ledger_of pre ∪ ledger_of post.
Proof. unfold ledger_of. by rewrite fmap_app, list_to_map_app. Qed.

Lemma ledger_lookup_absent rs sym :
  Forall (λ r, ¬ emoji r = sym) rs → ledger_of rs !! sym = None.
Proof.
  induction 1 as [|r rs Hr _ IH]; [done|].
  rewrite ledger_of_cons, lookup_insert_ne by done. exact IH.
Qed.

Lemma ledger_lookup_present rs sym s :
  ledger_of rs !! sym = Some s →
  ∃ r, r ∈ rs ∧ emoji r = sym ∧ s = list_to_set (users r).
Proof.
  induction rs as [|r rs IH]; [done|].
  rewrite ledger_of_cons. destruct (decide (emoji r = sym)) as [<-|Hne].
  - rewrite lookup_insert_eq. intros [= <-]. exists r. split; [by left|done].
  - rewrite lookup_insert_ne by done. intros (r' & Hin & ?)%IH.
    exists r'. split; [by right|done].
Qed.

(** The array around the first entry of a symbol. *)
Lemma ledger_lookup_first pre r post :
  Forall (λ r', ¬ emoji r' = emoji r) pre →
  ledger_of (pre ++ r :: post) !! emoji r = Some (list_to_set (users r)).
Proof.
  intros Hpre_. rewrite ledger_of_app, lookup_union_r
    by by apply ledger_lookup_absent.
  by rewrite ledger_of_cons, lookup_insert_eq.
Qed.

Lemma ledger_replace_first pre r r' post :
  Forall (λ x, ¬ emoji x = emoji r) pre → emoji r' = emoji r →
  ledger_of (pre ++ r' :: post)
  = <[emoji r := list_to_set (users r')]> (ledger_of (pre ++ r :: post)).
Proof.
  intros Hpre_ Hr'. rewrite !ledger_of_app, !ledger_of_cons, Hr'.
  rewrite insert_union_r by by apply ledger_lookup_absent.
  by rewrite insert_insert_eq.
Qed.

Lemma ledger_remove_first pre r post :
  NoDup (emoji <$> (pre ++ r :: post)) →
  ledger_of (pre ++ post) = delete (emoji r) (ledger_of (pre ++ r :: post)).
Proof.
  rewrite fmap_app, fmap_cons. intros Hnd.
  apply NoDup_app in Hnd as (_ & Hdisj & [Hr _]%NoDup_cons).
  assert (Forall (λ x, ¬ emoji x = emoji r) pre) as Hpre_.
  { apply Forall_forall. intros x Hx Heq. apply (Hdisj (emoji x)).
    - apply list_elem_of_fmap. eauto.
    - rewrite Heq. by left. }
  assert (Forall (λ x, ¬ emoji x = emoji r) post) as Hpost_.
  { apply Forall_forall. intros x Hx Heq. apply Hr.
    apply list_elem_of_fmap. eauto. }
  rewrite !ledger_of_app, ledger_of_cons, delete_union, delete_insert_eq.
  by rewrite !delete_id by by apply ledger_lookup_absent.
Qed.

Lemma ledger_append_new rs sym a :
  Forall (λ r, ¬ emoji r = sym) rs →
  ledger_of (rs ++ [mkReaction sym [a]]) = <[sym := {[a]}]> (ledger_of rs).
Proof.
  intros Hrs. rewrite ledger_of_app, ledger_of_cons.
  rewrite <-insert_union_r by by apply ledger_lookup_absent.
  change (ledger_of []) with (∅ : gmap string (gset ObjectId)).
  rewrite (right_id_L ∅ (∪)). f_equal.
  apply (list_to_set_singleton_L (C:=gset ObjectId)).
Qed.

(** Removing the one occurrence of an actor from a duplicate-free list. *)
Lemma actors_delete (us : list ObjectId) j a :
  NoDup us → us !! j = Some a →
  list_to_set (C:=gset ObjectId) (delete j us) = list_to_set us ∖ {[a]}.
Proof.
  intros Hnd Hj.
  rewrite <-(take_drop_middle us j a Hj) in Hnd |- * at 2.
  apply NoDup_app in Hnd as (_ & Hdisj & [Hnotin _]%NoDup_cons).
  rewrite delete_take_drop, !list_to_set_app_L, list_to_set_cons.
  assert (a ∉ take j us) as Hl by (intros Hin; apply (Hdisj a Hin); by left).
  apply set_eq. intros x.
  rewrite elem_of_difference, !elem_of_union, elem_of_singleton.
  rewrite !elem_of_list_to_set.
  destruct (decide (x = a)) as [->|]; tauto.
Qed.
End ledger_facts.

(** ** The toggle on the reaction array *)

Section toggle_facts.
Implicit Types (rs pre post : list Reaction) (r : Reaction).
Implicit Types (sym : string) (a : ObjectId).

Lemma insert_middle {A} (pre post : list A) x y :
  <[length pre := y]> (pre ++ x :: post) = pre ++ y :: post.
Proof.
  rewrite insert_app_r_alt by lia. by rewrite Nat.sub_diag.
Qed.

Lemma toggle_toggled rs sym a rs' :
  toggle rs sym a = Some rs' → toggled sym a (canonical a) rs rs'.
Proof.
  unfold toggle.
  destruct (list_find _ rs) as [[i r]|] eqn:Hfind.
  - apply list_find_split in Hfind as (pre & post & -> & <- & Hpre & Hr).
    match goal with
    | |- context [list_find ?P (users r)] =>
        destruct (list_find P (users r)) as [[j a']|] eqn:Hu
    end.
    + apply list_find_Some in Hu as (Hj & -> & _).
      intros Hrs'. eapply (toggled_removed _ _ _ _ _ pre r post j); [done..|].
      destruct (delete j (users r)) as [|u us] eqn:Hdel; simpl in Hrs'.
      * rewrite delete_middle in Hrs'. rewrite decide_True by done. congruence.
      * rewrite insert_middle in Hrs'. rewrite decide_False by done.
        congruence.
    + apply list_find_None in Hu.
      destruct (isValid a); [|done]. rewrite insert_middle. intros [= <-].
      eapply (toggled_added _ _ _ _ _ pre r post); [done..| |done].
      intros Hin. eapply Forall_forall in Hu; [|exact Hin]. by apply Hu.
  - apply list_find_None in Hfind.
    destruct (isValid a); [|done]. intros [= <-].
    by apply toggled_created.
Qed.

(** A toggle by a valid actor id always goes through. *)
Lemma toggle_valid rs sym a : isValid a = true → is_Some (toggle rs sym a).
Proof.
  intros Ha. unfold toggle. rewrite Ha.
  destruct (list_find _ rs) as [[i r]|]; [|by eexists].
  match goal with
  | |- context [list_find ?P (users r)] =>
      destruct (list_find P (users r)) as [[j a']|]; [|by eexists]
  end.
  destruct (_ =? _)%nat; by eexists.
Qed.

Lemma toggled_nonempty sym a b rs rs' :
  toggled sym a b rs rs' →
  Forall (λ r, users r ≠ []) rs → Forall (λ r, users r ≠ []) rs'.
Proof.
  intros [Habs -> | pre r post j -> Hpre Hr Hj -> | pre r post -> Hpre Hr Ha ->].
  - intros Hrs. apply Forall_app. split; [done|]. by repeat constructor.
  - intros (Hp & _ & Hq)%Forall_middle.
    case_decide; apply Forall_app; split; try done.
    by constructor.
  - intros (Hp & _ & Hq)%Forall_middle.
    apply Forall_app; split; [done|]. constructor; [|done]. simpl.
    by destruct (users r).
Qed.

(** What a toggle stores is among what was stored and the actor's id. *)
Lemma toggled_members (Q : ObjectId → Prop) sym a b rs rs' :
  toggled sym a b rs rs' → Q b →
  Forall (λ r, Forall Q (users r)) rs → Forall (λ r, Forall Q (users r)) rs'.
Proof.
  intros [Habs -> | pre r post j -> Hpre Hr Hj -> | pre r post -> Hpre Hr Ha ->]
    Hb.
  - intros Hrs. apply Forall_app. split; [done|]. by repeat constructor.
  - intros (Hp & Hq & Hpost)%Forall_middle.
    case_decide; apply Forall_app; split; try done.
    constructor; [|done]. simpl. by apply Forall_delete.
  - intros (Hp & Hq & Hpost)%Forall_middle.
    apply Forall_app; split; [done|]. constructor; [|done]. simpl.
    apply Forall_app. split; [done|]. by constructor.
Qed.

(** When the actor is sent in the spelling of the store, the toggle keeps a
    well-formed array well-formed. *)
Lemma toggled_wf sym a rs rs' :
  toggled sym a a rs rs' → ledger_wf rs → ledger_wf rs'.
Proof.
  intros Ht [Hsym Hact Hne]. split; [| |by eapply toggled_nonempty].
  - destruct Ht as
      [Habs -> | pre r post j -> Hpre Hr Hj -> | pre r post -> Hpre Hr Ha ->].
    + rewrite fmap_app. apply NoDup_app. split_and!; [done| |].
      * intros x (r & -> & Hin)%list_elem_of_fmap Hx. simpl in Hx.
        apply list_elem_of_singleton in Hx.
        eapply Forall_forall in Habs; [|exact Hin]. by apply Habs.
      * simpl. apply NoDup_singleton.
    + case_decide.
      * refine (sublist_NoDup _ _ Hsym _).
        rewrite !fmap_app. apply sublist_app; [done|]. by constructor.
      * by rewrite fmap_app, fmap_cons in Hsym |- *.
    + by rewrite fmap_app, fmap_cons in Hsym |- *.
  - destruct Ht as
      [Habs -> | pre r post j -> Hpre Hr Hj -> | pre r post -> Hpre Hr Ha ->].
    + apply Forall_app. split; [done|]. repeat constructor.
      apply not_elem_of_nil.
    + apply Forall_middle in Hact as (Hp & Hnd & Hq).
      case_decide; apply Forall_app; split; try done.
      constructor; [|done]. simpl.
      exact (sublist_NoDup _ _ Hnd (sublist_delete _ _)).
    + apply Forall_middle in Hact as (Hp & Hnd & Hq).
      apply Forall_app; split; [done|]. constructor; [|done]. simpl.
      apply NoDup_app. split_and!; [done| |apply NoDup_singleton].
      intros x Hx ->%list_elem_of_singleton. done.
Qed.

(** When the actor is sent in the spelling of the store, the array toggle
    computes the spec's toggle of the ledger of a well-formed array. *)
Lemma toggled_refines sym a rs rs' :
  toggled sym a a rs rs' → ledger_wf rs →
  ledger_of rs' = spec_toggle (ledger_of rs) sym a.
Proof.
  intros Ht [Hsym Hact _]. unfold spec_toggle.
  destruct Ht as
    [Habs -> | pre r post j -> Hpre <- Hj -> | pre r post -> Hpre <- Ha ->].
  - rewrite ledger_lookup_absent by done. by apply ledger_append_new.
  - rewrite ledger_lookup_first by done.
    apply Forall_middle in Hact as (_ & Hnd & _).
    assert (a ∈ list_to_set (C:=gset ObjectId) (users r)) as Hin.
    { apply elem_of_list_to_set. by eapply list_elem_of_lookup_2. }
    destruct (decide (a ∈ list_to_set (C:=gset ObjectId) (users r)));
      [|done].
    rewrite <-(actors_delete _ j a) by done.
    destruct (decide (delete j (users r) = [])) as [Hdel|Hdel].
    + rewrite Hdel. change (list_to_set []) with (∅ : gset ObjectId).
      destruct (decide (∅ = (∅ : gset ObjectId))); [|done].
      by apply ledger_remove_first.
    + destruct (decide (list_to_set (delete j (users r))
                        = (∅ : gset ObjectId))) as [Hempty|_].
      * destruct (delete j (users r)) as [|u us]; [done|].
        assert (u ∈ (∅ : gset ObjectId)) as []%elem_of_empty.
        rewrite <-Hempty. apply elem_of_list_to_set. by left.
      * by apply (ledger_replace_first pre r).
  - rewrite ledger_lookup_first by done.
    destruct (decide (a ∈ list_to_set (C:=gset ObjectId) (users r)))
      as [Hin%elem_of_list_to_set|_]; [done|].
    rewrite (ledger_replace_first pre r) by done. simpl.
    by rewrite list_to_set_snoc_L.
Qed.
End toggle_facts.

(** ** The toggle of the spec *)

Lemma spec_toggle_involutive (L : gmap string (gset ObjectId)) sym a :
  (∀ s, L !! sym = Some s → s ≠ ∅) →
  spec_toggle (spec_toggle L sym a) sym a = L.
Proof.
  intros Hne. unfold spec_toggle at 2.
  destruct (L !! sym) as [s|] eqn:Hs.
  - destruct (decide (a ∈ s)) as [Hin|Hnotin].
    + destruct (decide (s ∖ {[a]} = ∅)) as [Hempty|Hrest]; unfold spec_toggle.
      * rewrite lookup_delete_eq, insert_delete_eq.
        apply insert_id. rewrite Hs. f_equal.
        apply set_eq. intros x. rewrite elem_of_singleton. split; [|by intros ->].
        intros Hx. destruct (decide (x = a)) as [|Hxa]; [done|].
        assert (x ∈ s ∖ {[a]}) as Hd
          by (apply elem_of_difference; by rewrite elem_of_singleton).
        rewrite Hempty in Hd. by apply elem_of_empty in Hd.
      * rewrite lookup_insert_eq.
        destruct (decide (a ∈ s ∖ {[a]})) as [Hd|_].
        { apply elem_of_difference in Hd as [_ Hd].
          by rewrite elem_of_singleton in Hd. }
        rewrite insert_insert_eq. apply insert_id. rewrite Hs. f_equal.
        apply set_eq. intros x. rewrite elem_of_union, elem_of_difference,
          elem_of_singleton. destruct (decide (x = a)) as [->|]; tauto.
    + unfold spec_toggle. rewrite lookup_insert_eq.
      destruct (decide (a ∈ s ∪ {[a]})) as [_|Hn].
      2:{ destruct Hn. apply elem_of_union. right. by apply elem_of_singleton. }
      assert ((s ∪ {[a]}) ∖ {[a]} = s) as ->.
      { apply set_eq. intros x. rewrite elem_of_difference, elem_of_union,
          elem_of_singleton. destruct (decide (x = a)) as [->|]; tauto. }
      destruct (decide (s = ∅)) as [->|_]; [by destruct (Hne ∅)|].
      rewrite insert_insert_eq. by apply insert_id.
  - unfold spec_toggle. rewrite lookup_insert_eq.
    destruct (decide (a ∈ ({[a]} : gset ObjectId))) as [_|Hn].
    2:{ destruct Hn. by apply elem_of_singleton. }
    destruct (decide (({[a]} : gset ObjectId) ∖ {[a]} = ∅)) as [_|Hn].
    2:{ destruct Hn. apply set_eq. intros x.
        rewrite elem_of_difference, elem_of_singleton, elem_of_empty. tauto. }
    rewrite delete_insert_eq. by apply delete_id.
Qed.

(** ** Running a handler *)

Ltac unfold_act :=
  unfold respond, try_catch, Message_findOne, Message_findById,
    Message_findByIdAndDelete, Message_findByIdAndUpdate, Message_create,
    Message_save, Channel_findById, Channel_findByIdAndUpdate,
    Channel_updateOne, DiscordServer_findOne, Message_find, emit,
    user_id_string, cast_filter, cast_id, c_json, throw, effect, get_world,
    db_op, mbind, Act_bind, mret, Act_ret.

Lemma find_has_id id (ms : list Message) m :
  List.find (has_id id) ms = Some m → m ∈ ms ∧ msg_id m = id.
Proof.
  intros [Hin Hid]%List.find_some. split; [by apply list_elem_of_In|].
  unfold has_id in Hid. by apply bool_decide_eq_true in Hid.
Qed.

(** ** toggleReaction *)

(** The response and the world after a reaction request that passes the
    checks on its identifiers and finds its message: the message is saved
    with the new reaction array and the time of the request as its
    last-modified time. *)
Lemma toggleReaction_run c w messageId feed m a rs' :
  param c !! "messageId" = Some messageId → isValid messageId = true →
  b_conversationId (json c) = Some feed → isValid feed = true →
  List.find (has_id (canonical messageId)) (messageColl w) = Some m →
  b_user (json c) = Some (mkUserRef (Some a)) →
  toggle (reactions m) (b_emoji (json c)) a = Some rs' →
  respond (toggleReaction c) w =
    let m' := set_updatedAt (set_reactions m rs') (now w) in
    let w1 := log_effect (MessageStore m')
                (with_messages
                   (log_effect (MessageQuery (canonical messageId)) w)
                   (update_first (has_id (canonical messageId)) (λ _, m')
                                 (messageColl w))) in
    if io c
    then (mkResponse (JInfo "Reaction updated successfully") 200,
          log_effect (Emit feed "reactionUpdated" (PMessage m')) w1)
    else (mkResponse (JError "Failed to add reaction") 500, w1).
Proof.
  intros Hp Hv Hc Hvc Hm Hu Ht.
  destruct (find_has_id _ _ _ Hm) as [_ Hid].
  unfold toggleReaction. rewrite Hp, Hc, Hu. simpl. rewrite Hv, Hvc. simpl.
  unfold_act. rewrite Hv. simpl. rewrite Hm. simpl. rewrite Ht. simpl.
  rewrite Hid. by destruct (io c).
Qed.

(** What a reaction request can do to the collections, whatever it is. *)
Lemma toggleReaction_messages c w :
  let w' := (respond (toggleReaction c) w).2 in
  channelColl w' = channelColl w ∧
  (messageColl w' = messageColl w ∨
   ∃ m a rs', m ∈ messageColl w ∧
     toggle (reactions m) (b_emoji (json c)) a = Some rs' ∧
     messageColl w' = update_first (has_id (msg_id m))
                        (λ _, set_updatedAt (set_reactions m rs') (now w))
                        (messageColl w)).
Proof.
  unfold toggleReaction.
  destruct (negb _ || negb _); [by split; [|left]|].
  unfold_act. simpl.
  destruct (isValid _); [|by split; [|left]]. simpl.
  destruct (List.find _ (messageColl w)) as [m|] eqn:Hm; [|by split; [|left]].
  apply find_has_id in Hm as [Hin _].
  destruct (b_user (json c)) as [[[a|]]|]; simpl; [|by split; [|left]..].
  destruct (toggle _ _ a) as [rs'|] eqn:Ht; [|by split; [|left]].
  destruct (io c); (split; [done|]); right; by exists m, a, rs'.
Qed.

(** The message stored after a well-formed reaction request on an existing
    message: the message with its reaction array toggled and its
    last-modified time set.  The broadcast needs the Socket.IO server; the
    write does not. *)
Lemma toggleReaction_stored c w messageId feed m a :
  param c !! "messageId" = Some messageId → isValid messageId = true →
  b_conversationId (json c) = Some feed → isValid feed = true →
  b_user (json c) = Some (mkUserRef (Some a)) → isValid a = true →
  List.find (has_id (canonical messageId)) (messageColl w) = Some m →
  ∃ rs', toggle (reactions m) (b_emoji (json c)) a = Some rs' ∧
    List.find (has_id (canonical messageId))
              (messageColl (respond (toggleReaction c) w).2)
    = Some (set_updatedAt (set_reactions m rs') (now w)) ∧
    now (respond (toggleReaction c) w).2 = now w ∧
    status (respond (toggleReaction c) w).1 = (if io c then 200 else 500).
Proof.
  intros Hp Hv Hc Hvc Hu Ha Hm.
  destruct (toggle_valid (reactions m) (b_emoji (json c)) a Ha) as [rs' Ht].
  exists rs'. split; [done|].
  rewrite (toggleReaction_run c w messageId feed m a rs') by done.
  assert (List.find (has_id (canonical messageId))
            (update_first (has_id (canonical messageId))
               (λ _, set_updatedAt (set_reactions m rs') (now w))
               (messageColl w))
          = Some (set_updatedAt (set_reactions m rs') (now w))) as Hf.
  { apply (find_update_first _
             (λ _, set_updatedAt (set_reactions m rs') (now w)) _ m); [done|].
    apply find_has_id in Hm as [_ Hid]. unfold has_id. simpl.
    by apply bool_decide_eq_true. }
  by destruct (io c).
Qed.

(** C10: a reaction request whose target feed id is not a well-formed
    identifier is answered 400 (InvalidInput) before any message is read or
    written, also when the message id is well-formed and the message exists:
    the world, with its trace of reads, writes and broadcasts, is the one the
    request found. *)
Theorem toggleReaction_malformed_feed c w :
  isValidValue (b_conversationId (json c)) = false →
  respond (toggleReaction c) w
  = (mkResponse (JError "Invalid ID format") 400, w).
Proof.
  intros Hfeed. unfold toggleReaction. rewrite Hfeed.
  by rewrite orb_true_r.
Qed.

Lemma toggleReaction_malformed_feed_witness :
  isValid (msg_id m1) = true ∧
  List.find (has_id (msg_id m1)) (messageColl sample_world) = Some m1 ∧
  respond (toggleReaction (reaction_ctx (msg_id m1) "heart" idU "general"))
          sample_world
  = (mkResponse (JError "Invalid ID format") 400, sample_world).
Proof.
  split; [reflexivity|]. split; [reflexivity|].
  apply toggleReaction_malformed_feed. reflexivity.
Defined.

(** C6: no reaction request leaves an entry without actors in the store:
    when every stored entry has at least one actor before the request, every
    stored entry has at least one actor after it. *)
Theorem toggleReaction_no_empty_entry c w :
  no_empty_entry w → no_empty_entry (respond (toggleReaction c) w).2.
Proof.
  intros Hw. unfold no_empty_entry in *.
  destruct (toggleReaction_messages c w) as [_ [-> | (m & a & rs' & Hin & Ht & ->)]];
    [done|].
  apply Forall_update_first; [done|]. intros _ _ _. simpl.
  apply toggle_toggled in Ht. eapply toggled_nonempty; [done|].
  eapply Forall_forall in Hw; [|exact Hin]. done.
Qed.

Lemma toggleReaction_no_empty_entry_witness :
  no_empty_entry reacted_world ∧
  no_empty_entry
    (respond (toggleReaction (reaction_ctx (msg_id m1) "thumbsup" idS idC))
             reacted_world).2.
Proof.
  assert (no_empty_entry reacted_world) as Hw.
  { unfold no_empty_entry. simpl. repeat constructor; discriminate. }
  split; [exact Hw|].
  apply (toggleReaction_no_empty_entry _ _ Hw).
Defined.

(** For an actor id sent in the spelling of the store (lower case) and a
    stored reaction array with one entry per symbol and no actor twice in an
    entry, a well-formed reaction request on an existing message moves the
    array by exactly one of the three cases of [toggled] (no entry for the
    symbol: an entry with the actor as sole member is created; the actor is
    in the entry: the actor is removed, and the entry with it when that
    empties it; the actor is not in the entry: the actor is added), and so
    moves the Reaction Ledger by the toggle of the spec.  Of the message,
    only the reactions and the last-modified time change. *)
Lemma toggleReaction_ledger c w messageId feed m a :
  param c !! "messageId" = Some messageId → isValid messageId = true →
  b_conversationId (json c) = Some feed → isValid feed = true →
  b_user (json c) = Some (mkUserRef (Some a)) → isValid a = true →
  canonical a = a →
  List.find (has_id (canonical messageId)) (messageColl w) = Some m →
  ledger_wf (reactions m) →
  ∃ m', List.find (has_id (canonical messageId))
                  (messageColl (respond (toggleReaction c) w).2) = Some m' ∧
    m' = set_updatedAt (set_reactions m (reactions m')) (now w) ∧
    toggled (b_emoji (json c)) a a (reactions m) (reactions m') ∧
    ledger_wf (reactions m') ∧
    ledger_of (reactions m')
    = spec_toggle (ledger_of (reactions m)) (b_emoji (json c)) a.
Proof.
  intros Hp Hv Hc Hvc Hu Ha Hcan Hm Hwf.
  destruct (toggleReaction_stored c w messageId feed m a)
    as (rs' & Ht%toggle_toggled & Hfind & _); [done..|].
  rewrite Hcan in Ht.
  exists (set_updatedAt (set_reactions m rs') (now w)).
  split_and!; [done|done|..]; simpl.
  - done.
  - by eapply toggled_wf.
  - by apply toggled_refines.
Qed.

Ltac by_compute := apply (bool_decide_unpack _); vm_compute; exact I.

Lemma reacted_message_wf : ledger_wf (reactions reacted_message).
Proof. split; by_compute. Qed.

Example toggleReaction_ledger_added :
  let c := reaction_ctx (msg_id m1) "thumbsup" idU idC in
  ∃ m', List.find (has_id (msg_id m1))
                  (messageColl (respond (toggleReaction c) reacted_world).2)
        = Some m' ∧
    reactions m'
    = [mkReaction "thumbsup" [idS; idU]; mkReaction "heart" [idU]] ∧
    ledger_of (reactions m')
    = spec_toggle (ledger_of (reactions reacted_message)) "thumbsup" idU.
Proof.
  destruct (toggleReaction_ledger
              (reaction_ctx (msg_id m1) "thumbsup" idU idC) reacted_world
              (msg_id m1) idC reacted_message idU)
    as (m' & Hfind & Hm' & _ & _ & Hledger);
    try solve [reflexivity | exact reacted_message_wf].
  exists m'. split; [exact Hfind|]. split; [|exact Hledger].
  vm_compute in Hfind. by injection Hfind as <-.
Qed.

(** C4: the member search compares the [toString()] of each stored id with
    the actor id as the request body spells it, while the push stores the
    ObjectId the body's string is cast to.  [idS] is the sole member of the
    entry of "thumbsup" on the stored message; the reaction request of the
    same actor, its id sent in upper case, is answered 200 and the actor is
    not removed (nor the entry deleted) but stored a second time: the
    Reaction Ledger stays as it was, where the case "present and a member"
    takes the actor out. *)
Theorem toggleReaction_member_stored_twice :
  let c := reaction_ctx (msg_id m1) "thumbsup" idS_upper idC in
  let out := respond (toggleReaction c) reacted_world in
  let rs' := [mkReaction "thumbsup" [idS; idS]; mkReaction "heart" [idU]] in
  isValid idS_upper = true ∧ canonical idS_upper = idS ∧
  List.find (has_id (msg_id m1)) (messageColl reacted_world)
  = Some reacted_message ∧
  reactions reacted_message
  = [mkReaction "thumbsup" [idS]; mkReaction "heart" [idU]] ∧
  reacted (reactions reacted_message) "thumbsup" idS ∧
  status out.1 = 200 ∧
  reactions <$> List.find (has_id (msg_id m1)) (messageColl out.2)
  = Some rs' ∧
  ledger_of rs' = ledger_of (reactions reacted_message) ∧
  ledger_of rs'
  ≠ spec_toggle (ledger_of (reactions reacted_message)) "thumbsup" idS.
Proof.
  split_and!; try reflexivity.
  - exists {[ idS ]}. split; [reflexivity|]. by apply elem_of_singleton.
  - intros Heq. apply (f_equal (λ L, L !! "thumbsup"%string)) in Heq.
    vm_compute in Heq. discriminate Heq.
Qed.

(** For an actor id sent in the spelling of the store and a stored reaction
    array with one entry per symbol and no actor twice in an entry, two
    consecutive well-formed reaction requests with the same message, actor
    and symbol restore the message's Reaction Ledger (every symbol has the
    member set it had). *)
Lemma toggle_twice_restores_ledger c w messageId feed m a :
  param c !! "messageId" = Some messageId → isValid messageId = true →
  b_conversationId (json c) = Some feed → isValid feed = true →
  b_user (json c) = Some (mkUserRef (Some a)) → isValid a = true →
  canonical a = a →
  List.find (has_id (canonical messageId)) (messageColl w) = Some m →
  ledger_wf (reactions m) →
  ∃ m', List.find (has_id (canonical messageId))
                  (messageColl (toggle_twice c w))
        = Some m' ∧
    m' = set_updatedAt (set_reactions m (reactions m')) (now w) ∧
    ledger_wf (reactions m') ∧
    ledger_of (reactions m') = ledger_of (reactions m).
Proof.
  intros Hp Hv Hc Hvc Hu Ha Hcan Hm Hwf. unfold toggle_twice.
  destruct (toggleReaction_stored c w messageId feed m a)
    as (rs1 & Ht1%toggle_toggled & Hfind1 & Hnow & _); [done..|].
  destruct (toggleReaction_stored c (respond (toggleReaction c) w).2
              messageId feed (set_updatedAt (set_reactions m rs1) (now w)) a)
    as (rs2 & Ht2%toggle_toggled & Hfind2 & _); [done..|].
  simpl in Ht2. rewrite Hcan in Ht1, Ht2. rewrite Hnow in Hfind2.
  pose proof (toggled_wf _ _ _ _ Ht1 Hwf) as Hwf1.
  exists (set_updatedAt
            (set_reactions (set_updatedAt (set_reactions m rs1) (now w)) rs2)
            (now w)).
  split_and!; [done|done|..]; simpl.
  - by eapply toggled_wf.
  - rewrite (toggled_refines _ _ _ _ Ht2 Hwf1).
    rewrite (toggled_refines _ _ _ _ Ht1 Hwf).
    apply spec_toggle_involutive.
    intros s (r & Hr & _ & ->)%ledger_lookup_present Hempty.
    destruct Hwf as [_ _ Hne]. eapply Forall_forall in Hne; [|exact Hr].
    destruct (users r) as [|u us]; [done|].
    assert (u ∈ (∅ : gset ObjectId)) as []%elem_of_empty.
    rewrite <-Hempty. apply elem_of_list_to_set. by left.
Qed.

Example toggle_twice_restores_sample :
  let c := reaction_ctx (msg_id m1) "thumbsup" idS idC in
  ∃ m', List.find (has_id (msg_id m1))
                  (messageColl (toggle_twice c reacted_world))
        = Some m' ∧
    ledger_of (reactions m') = ledger_of (reactions reacted_message).
Proof.
  destruct (toggle_twice_restores_ledger
              (reaction_ctx (msg_id m1) "thumbsup" idS idC) reacted_world
              (msg_id m1) idC reacted_message idS)
    as (m' & Hfind & _ & _ & Hledger);
    try solve [reflexivity | exact reacted_message_wf].
  by exists m'.
Qed.

(** C5: two consecutive reaction requests with the same message, actor and
    symbol do not restore the Reaction Ledger when the actor id is sent in
    upper case: the member search compares the stored ids with the string of
    the request, so the second request does not find the member the first
    one stored and stores it again.  [m1] has no reaction; after the two
    requests, both answered 200, it has the entry of "thumbsup" with [idS]
    in it twice. *)
Theorem toggle_twice_leaves_member :
  let c := reaction_ctx (msg_id m1) "thumbsup" idS_upper idC in
  let first := respond (toggleReaction c) sample_world in
  let second := respond (toggleReaction c) first.2 in
  isValid idS_upper = true ∧ canonical idS_upper = idS ∧
  reactions <$> List.find (has_id (msg_id m1)) (messageColl sample_world)
  = Some [] ∧
  status first.1 = 200 ∧ status second.1 = 200 ∧
  second.2 = toggle_twice c sample_world ∧
  reactions <$> List.find (has_id (msg_id m1))
                          (messageColl (toggle_twice c sample_world))
  = Some [mkReaction "thumbsup" [idS; idS]] ∧
  ledger_of [mkReaction "thumbsup" [idS; idS]] ≠ ledger_of [].
Proof.
  split_and!; try reflexivity.
  intros Heq. apply (f_equal (λ L, L !! "thumbsup"%string)) in Heq.
  revert Heq. by vm_compute.
Qed.

(** ** deleteMessage *)

Lemma find_stronger {A} (p q : A → bool) (l : list A) x :
  List.find p l = Some x → q x = true → (∀ y, q y = true → p y = true) →
  List.find q l = Some x.
Proof.
  intros Hfind Hq Hqp. induction l as [|y l IH]; simpl in *; [done|].
  destruct (p y) eqn:Hy.
  - injection Hfind as ->. by rewrite Hq.
  - destruct (q y) eqn:Hqy; [|by apply IH].
    apply Hqp in Hqy. congruence.
Qed.


Lemma find_none_intro {A} (p : A → bool) (l : list A) :
  (∀ x, x ∈ l → p x = false) → List.find p l = None.
Proof.
  induction l as [|x l IH]; intros Hp; simpl; [done|].
  rewrite (Hp x) by by left. apply IH. intros y Hy. apply Hp. by right.
Qed.

(** The lookup finds nothing: the request is refused, and only the lookup
    happened. *)
Lemma deleteMessage_refused c w messageId :
  param c !! "messageId" = Some messageId → isValid messageId = true →
  (∀ u, param c !! "user" = Some u → isValid u = true) →
  List.find (owned_by (canonical messageId) (canonical <$> param c !! "user"))
            (messageColl w) = None →
  respond (deleteMessage c) w
  = (mkResponse (JError "You do not have permission to delete messages") 403,
     log_effect (MessageQuery (canonical messageId)) w).
Proof.
  intros Hp Hv Hu Hfind. unfold deleteMessage. rewrite Hp. simpl.
  assert (messageId ≠ EmptyString) as Hne by (by intros ->).
  rewrite bool_decide_eq_false_2 by done. rewrite Hv. simpl.
  unfold_act. rewrite Hv.
  destruct (param c !! "user") as [u|] eqn:Hpu; simpl in *.
  - rewrite (Hu u) by done. simpl. by rewrite Hfind.
  - by rewrite Hfind.
Qed.

(** The lookup finds the message: it is removed, the deletion is broadcast to
    its channel, and its id is pulled from the channel that lists it. *)
Lemma deleteMessage_run c w messageId m0 m ch :
  param c !! "messageId" = Some messageId → isValid messageId = true →
  (∀ u, param c !! "user" = Some u → isValid u = true) →
  List.find (owned_by (canonical messageId) (canonical <$> param c !! "user"))
            (messageColl w) = Some m0 →
  List.find (has_id (canonical messageId)) (messageColl w) = Some m →
  channel m = Some ch → io c = true →
  respond (deleteMessage c) w
  = (mkResponse (JInfo "Message deleted successfully") 200,
     mkWorld (remove_first (has_id (canonical messageId)) (messageColl w))
             (update_first
                (λ ch, bool_decide (canonical messageId ∈ messages ch))
                (λ ch, set_messages ch
                         (pull (canonical messageId) (messages ch)))
                (channelColl w))
             (serverColl w) (userColl w) (now w) (freshId w)
             (trace w ++ [MessageQuery (canonical messageId);
                          MessageRemove (canonical messageId);
                          Emit ch "messageDeleted" (PId messageId);
                          ChannelPull (canonical messageId)])).
Proof.
  intros Hp Hv Hu Hown Hfind Hch Hio. unfold deleteMessage. rewrite Hp. simpl.
  assert (messageId ≠ EmptyString) as Hne by (by intros ->).
  rewrite bool_decide_eq_false_2 by done. rewrite Hv. simpl.
  unfold_act. rewrite Hv, Hio.
  destruct (param c !! "user") as [u|] eqn:Hpu; simpl in *.
  - rewrite (Hu u) by done. simpl. rewrite Hown. simpl. rewrite Hfind, Hch.
    simpl. unfold log_effect, with_messages, with_channels. simpl.
    by rewrite <-!app_assoc.
  - rewrite Hown. simpl. rewrite Hfind, Hch.
    simpl. unfold log_effect, with_messages, with_channels. simpl.
    by rewrite <-!app_assoc.
Qed.

(** A delete request whose actor parameter names someone else than the sender
    of the message is refused and changes no collection. *)
Lemma deleteMessage_non_author c w messageId actor :
  param c !! "messageId" = Some messageId → isValid messageId = true →
  param c !! "user" = Some actor → isValid actor = true →
  (∀ m, m ∈ messageColl w → msg_id m = canonical messageId →
     sender m ≠ Some (canonical actor)) →
  respond (deleteMessage c) w
  = (mkResponse (JError "You do not have permission to delete messages") 403,
     log_effect (MessageQuery (canonical messageId)) w).
Proof.
  intros Hp Hv Hu Hva Hother. apply deleteMessage_refused; [done..| |].
  - intros u. rewrite Hu. by intros [= <-].
  - rewrite Hu. apply find_none_intro. intros m Hm. unfold owned_by, has_id.
    destruct (bool_decide_reflect (msg_id m = canonical messageId)) as [Hid|];
      [|done].
    simpl. apply bool_decide_eq_false. by apply Hother.
Qed.

(** A delete request whose actor parameter names the sender succeeds. *)
Lemma deleteMessage_author c w messageId actor m ch :
  param c !! "messageId" = Some messageId → isValid messageId = true →
  param c !! "user" = Some actor → isValid actor = true →
  List.find (has_id (canonical messageId)) (messageColl w) = Some m →
  sender m = Some (canonical actor) → channel m = Some ch → io c = true →
  respond (deleteMessage c) w
  = (mkResponse (JInfo "Message deleted successfully") 200,
     mkWorld (remove_first (has_id (canonical messageId)) (messageColl w))
             (update_first
                (λ ch, bool_decide (canonical messageId ∈ messages ch))
                (λ ch, set_messages ch
                         (pull (canonical messageId) (messages ch)))
                (channelColl w))
             (serverColl w) (userColl w) (now w) (freshId w)
             (trace w ++ [MessageQuery (canonical messageId);
                          MessageRemove (canonical messageId);
                          Emit ch "messageDeleted" (PId messageId);
                          ChannelPull (canonical messageId)])).
Proof.
  intros Hp Hv Hu Hva Hfind Hs Hch Hio.
  apply (deleteMessage_run c w messageId m m ch); try done.
  - intros u. rewrite Hu. by intros [= <-].
  - rewrite Hu. apply (find_stronger (has_id (canonical messageId))); [done| |].
    + destruct (find_has_id _ _ _ Hfind) as [_ Hid]. unfold owned_by, has_id.
      by rewrite !bool_decide_eq_true_2.
    + unfold owned_by. by intros y [? _]%andb_true_iff.
Qed.

(** The message is gone afterwards and its id is in no channel list that was
    duplicate-free. *)
Lemma remove_first_gone messageId (ms : list Message) m :
  List.find (has_id (canonical messageId)) ms = Some m →
  (∀ m', m' ∈ ms → msg_id m' = canonical messageId → m' = m) → NoDup ms →
  List.find (has_id (canonical messageId))
            (remove_first (has_id (canonical messageId)) ms) = None.
Proof.
  intros Hfind Huniq Hnd. eapply find_remove_first; [done..|].
  intros y Hy Hid. apply Huniq; [done|].
  unfold has_id in Hid. by apply bool_decide_eq_true in Hid.
Qed.

Lemma pull_gone x (l : list ObjectId) : x ∉ pull x l.
Proof.
  unfold pull. rewrite list_elem_of_In, List.filter_In.
  intros [_ Hx]. by rewrite bool_decide_eq_true_2 in Hx.
Qed.

(** ** The routes of deleteMessage and updateMessage *)

Lemma serve_delete r w id :
  method r = DELETE → path r = ["delete-message"%string; id] →
  id ≠ EmptyString →
  serve r w = Some (respond (deleteMessage (bind_param r "messageId" id)) w).
Proof.
  intros Hm Hp Hid. unfold serve, messageRouter, matches. rewrite Hm, Hp.
  by rewrite bool_decide_eq_false_2.
Qed.

Lemma serve_update r w id :
  method r = PUT → path r = ["update-message"%string; id] →
  id ≠ EmptyString →
  serve r w = Some (respond (updateMessage (bind_param r "messageId" id)) w).
Proof.
  intros Hm Hp Hid. unfold serve, messageRouter, matches. rewrite Hm, Hp.
  by rewrite bool_decide_eq_false_2.
Qed.

(** The delete route names no actor parameter, so the handler's [user] is
    undefined and the permission lookup asks for a message without sender:
    every delete request for a message that has a sender is refused, whoever
    sends it. *)
Lemma delete_route_refuses r w id :
  method r = DELETE → path r = ["delete-message"%string; id] →
  isValid id = true →
  (∀ m, m ∈ messageColl w → msg_id m = canonical id → sender m ≠ None) →
  serve r w
  = Some (mkResponse
            (JError "You do not have permission to delete messages") 403,
          log_effect (MessageQuery (canonical id)) w).
Proof.
  intros Hm Hp Hv Hsender.
  assert (id ≠ EmptyString) as Hne by (by intros ->).
  rewrite (serve_delete r w id) by done. f_equal.
  assert (param (bind_param r "messageId" id) !! "user" = None) as Hu
    by by apply lookup_singleton_ne.
  apply deleteMessage_refused.
  - apply lookup_singleton_eq.
  - done.
  - intros u. by rewrite Hu.
  - rewrite Hu. apply find_none_intro. intros m Hin. unfold owned_by, has_id.
    destruct (bool_decide_reflect (msg_id m = canonical id)) as [Hid|]; [|done].
    simpl. apply bool_decide_eq_false. by apply Hsender.
Qed.

(** The update route names no actor parameter either, so [userId] is
    undefined and fails the identifier check: every update request is
    answered 400 and changes nothing. *)
Lemma update_route_refuses r w id :
  method r = PUT → path r = ["update-message"%string; id] →
  id ≠ EmptyString →
  serve r w
  = Some (mkResponse
            (JError "Invalid message ID format or user ID format") 400, w).
Proof.
  intros Hm Hp Hne. rewrite (serve_update r w id) by done. f_equal.
  unfold updateMessage.
  assert (param (bind_param r "messageId" id) !! "userId" = None) as ->
    by by apply lookup_singleton_ne.
  assert (param (bind_param r "messageId" id) !! "messageId" = Some id) as ->
    by apply lookup_singleton_eq.
  simpl. rewrite bool_decide_eq_false_2 by done. simpl.
  by rewrite orb_true_r.
Qed.

(** ** updateMessage *)

(** An update request whose actor parameter names the sender of the message
    rewrites the content, sets the last-modified time to the time of the
    request, broadcasts the updated message to its channel and returns it. *)
Lemma updateMessage_author c w messageId actor text m ch :
  param c !! "messageId" = Some messageId → isValid messageId = true →
  param c !! "userId" = Some actor → isValid actor = true →
  b_content (json c) = Some text → text ≠ EmptyString →
  List.find (has_id (canonical messageId)) (messageColl w) = Some m →
  sender m = Some (canonical actor) → channel m = Some ch → io c = true →
  respond (updateMessage c) w
  = (mkResponse (JMessage (set_content m text (now w))) 200,
     mkWorld (update_first (has_id (canonical messageId))
                (λ _, set_content m text (now w)) (messageColl w))
             (channelColl w) (serverColl w) (userColl w) (now w) (freshId w)
             (trace w ++ [MessageQuery (canonical messageId);
                          MessageStore (set_content m text (now w));
                          Emit ch "messageUpdated"
                               (PMessage (set_content m text (now w)))])).
Proof.
  intros Hp Hv Hu Hva Hc Htext Hfind Hs Hch Hio.
  assert (List.find (owned_by (canonical messageId) (Some (canonical actor)))
                    (messageColl w) = Some m)
    as Hown.
  { apply (find_stronger (has_id (canonical messageId))); [done| |].
    - destruct (find_has_id _ _ _ Hfind) as [_ Hid]. unfold owned_by, has_id.
      by rewrite !bool_decide_eq_true_2.
    - unfold owned_by. by intros y [? _]%andb_true_iff. }
  assert (messageId ≠ EmptyString) as Hne by (by intros ->).
  unfold updateMessage. rewrite Hp, Hu, Hc. simpl.
  rewrite !bool_decide_eq_false_2 by done. rewrite Hv, Hva. simpl.
  unfold_act. rewrite Hv, Hva, Hio. simpl. rewrite Hown. simpl.
  rewrite Hfind. simpl. rewrite Hch. simpl.
  unfold log_effect, with_messages. simpl. by rewrite <-!app_assoc.
Qed.

(** ** The order of the effects of a successful mutation *)

Lemma createMessage_trace c w :
  status (respond (createMessage c) w).1 = 201 →
  ∃ ch srv m snd,
    trace (respond (createMessage c) w).2
    = trace w ++ [ChannelQuery (canonical ch); ServerQuery srv;
                  MessageInsert m; Emit ch "message" (PMessage m);
                  ChannelPush (canonical ch) (msg_id m) snd].
Proof.
  unfold createMessage. unfold_act.
  destruct (io c); simpl; [|done].
  destruct (param c !! "channelId") as [ch|]; simpl; [|done].
  destruct (b_senderId (json c)) as [snd|]; simpl; [|by rewrite ?orb_true_r].
  destruct (b_content (json c)) as [text|]; simpl; [|by rewrite ?orb_true_r].
  destruct (negb _ || negb _ || negb _); simpl; [done|].
  destruct (isValid ch); simpl; [|done].
  destruct (isValid snd); simpl; [|done].
  destruct (List.find _ (channelColl w)) as [chan|]; simpl; [|done].
  destruct (List.find _ (serverColl w)) as [srv|]; simpl; [|done].
  intros _.
  exists ch, (server chan),
    (mkMessage (freshId w) (Some (canonical ch)) (Some (canonical snd)) text []
               (now w) (now w)), (canonical snd).
  by rewrite <-!app_assoc.
Qed.

Lemma deleteMessage_trace c w :
  status (respond (deleteMessage c) w).1 = 200 →
  ∃ id ch,
    trace (respond (deleteMessage c) w).2
    = trace w ++ [MessageQuery (canonical id); MessageRemove (canonical id);
                  Emit ch "messageDeleted" (PId id);
                  ChannelPull (canonical id)].
Proof.
  unfold deleteMessage. unfold_act.
  destruct (param c !! "messageId") as [id|]; simpl; [|done].
  destruct (negb _); simpl; [done|].
  destruct (isValid id); simpl; [|done].
  destruct (param c !! "user") as [u|]; simpl.
  - destruct (isValid u); simpl; [|done].
    destruct (List.find (owned_by _ _) _) as [m0|]; simpl; [|done].
    destruct (List.find (has_id _) _) as [m|]; simpl; [|done].
    destruct (channel m) as [ch|]; simpl; [|done].
    destruct (io c); simpl; [|done].
    intros _. exists id, ch. by rewrite <-!app_assoc.
  - destruct (List.find (owned_by _ _) _) as [m0|]; simpl; [|done].
    destruct (List.find (has_id _) _) as [m|]; simpl; [|done].
    destruct (channel m) as [ch|]; simpl; [|done].
    destruct (io c); simpl; [|done].
    intros _. exists id, ch. by rewrite <-!app_assoc.
Qed.

(** ** getMessagesByChannelId *)

Lemma insert_desc_oldest m (l : list Message) :
  Forall (λ x, createdAt m < createdAt x) l → insert_desc m l = l ++ [m].
Proof.
  induction 1 as [|x l Hx _ IH]; simpl; [done|].
  destruct (Z.leb_spec (createdAt x) (createdAt m)); [lia|]. by rewrite IH.
Qed.

(** Newest first is the reverse of the order of creation. *)
Lemma sort_desc_in_order (ms : list Message) :
  created_in_order ms → sort_desc ms = reverse ms.
Proof.
  induction 1 as [|m l _ IH Hm]; simpl; [done|].
  rewrite IH, reverse_cons. apply insert_desc_oldest. by apply Forall_reverse.
Qed.

(** The response to a list request with a well-formed channel id and a page
    number and a page size that are at least 1. *)
Lemma getMessagesByChannelId_run c w ch p s :
  param c !! "channelId" = Some ch → isValid ch = true →
  parseInt (or_default (query c !! "page") "1") = Num p → 1 ≤ p →
  parseInt (or_default (query c !! "limit") "50") = Num s → 1 ≤ s →
  respond (getMessagesByChannelId c) w
  = (let found :=
       page_slice p s (sort_desc (channel_messages (canonical ch) w)) in
     if decide (found = [])
     then mkResponse (JInfo "No messages found for this channel") 404
     else mkResponse (JMessages (populate (userColl w) <$> found)) 200,
     log_effect (MessageQuery (canonical ch)) w).
Proof.
  intros Hp Hv Hpage Hp1 Hlimit Hs1.
  assert (ch ≠ EmptyString) as Hne by (by intros ->).
  unfold getMessagesByChannelId. rewrite Hp, Hpage, Hlimit. simpl.
  rewrite bool_decide_eq_false_2 by done. rewrite Hv. simpl.
  unfold_act. rewrite Hv. simpl.
  destruct (Z.ltb_spec ((p - 1) * s) 0) as [|_]; [nia|]. simpl.
  destruct (Z.eqb_spec s 0) as [|_]; [lia|]. simpl.
  rewrite Z.abs_eq by lia.
  fold (channel_messages (canonical ch) w).
  fold (page_slice p s (sort_desc (channel_messages (canonical ch) w))).
  destruct (page_slice p s (sort_desc (channel_messages (canonical ch) w)))
    as [|m found]; simpl.
  - reflexivity.
  - reflexivity.
Qed.

(** What the query itself yields on a channel without messages. *)
Lemma Message_find_empty ch p s w :
  isValid ch = true → 1 ≤ p → 1 ≤ s →
  channel_messages (canonical ch) w = [] →
  Message_find ch (js_mul (js_sub (Num p) (Num 1)) (Num s)) (Num s) w
  = (Value [], log_effect (MessageQuery (canonical ch)) w).
Proof.
  intros Hv Hp Hs Hnone. unfold_act. rewrite Hv. simpl.
  destruct (Z.ltb_spec ((p - 1) * s) 0) as [|_]; [nia|]. simpl.
  destruct (Z.eqb_spec s 0) as [|_]; [lia|]. simpl.
  fold (channel_messages (canonical ch) w). rewrite Hnone. simpl.
  by rewrite drop_nil, take_nil.
Qed.

(** C3: for a channel without messages and a well-formed channel id, with
    page and page size at least 1, listing the channel in the store (the
    query [Message.find] with its sort, skip and limit) completes with the
    empty sequence: it raises nothing and writes nothing.  What an empty page
    is for the client is decided by the caller of the query, the handler: it
    answers 404 with the message "No messages found for this channel". *)
Theorem getMessages_empty_channel c w ch p s :
  param c !! "channelId" = Some ch → isValid ch = true →
  parseInt (or_default (query c !! "page") "1") = Num p → 1 ≤ p →
  parseInt (or_default (query c !! "limit") "50") = Num s → 1 ≤ s →
  channel_messages (canonical ch) w = [] →
  Message_find ch (js_mul (js_sub (Num p) (Num 1)) (Num s)) (Num s) w
  = (Value [], log_effect (MessageQuery (canonical ch)) w) ∧
  respond (getMessagesByChannelId c) w
  = (mkResponse (JInfo "No messages found for this channel") 404,
     log_effect (MessageQuery (canonical ch)) w).
Proof.
  intros Hp Hv Hpage Hp1 Hlimit Hs1 Hnone. split.
  - by apply Message_find_empty.
  - rewrite (getMessagesByChannelId_run c w ch p s) by done.
    rewrite Hnone. unfold page_slice. simpl. by rewrite drop_nil, take_nil.
Qed.

Lemma getMessages_empty_channel_witness :
  let c := list_ctx idC {[ "page" := "1"; "limit" := "50" ]}%string in
  channel_messages idC empty_channel_world = [] ∧
  Message_find idC (js_mul (js_sub (Num 1) (Num 1)) (Num 50)) (Num 50)
               empty_channel_world
  = (Value [], log_effect (MessageQuery idC) empty_channel_world) ∧
  respond (getMessagesByChannelId c) empty_channel_world
  = (mkResponse (JInfo "No messages found for this channel") 404,
     log_effect (MessageQuery idC) empty_channel_world).
Proof.
  split; [reflexivity|].
  apply (getMessages_empty_channel
           (list_ctx idC {[ "page" := "1"; "limit" := "50" ]}%string)
           empty_channel_world idC 1 50);
    solve [reflexivity | lia].
Defined.

(** C9: listing is offset based and newest first.  For a channel whose
    messages were created in the order they are stored, page [p] of size [s]
    carries the messages at the positions (p-1)*s+1 to p*s of the reverse
    order of creation (200 when there is one, 404 when there is none), and
    the page size is 50 when the request gives none.  The channel is the one
    the id of the request is cast to, however the request spells it. *)
Theorem getMessages_page c w ch p s :
  param c !! "channelId" = Some ch → isValid ch = true →
  parseInt (or_default (query c !! "page") "1") = Num p → 1 ≤ p →
  parseInt (or_default (query c !! "limit") "50") = Num s → 1 ≤ s →
  created_in_order (channel_messages (canonical ch) w) →
  (query c !! "limit" = None → s = 50) ∧
  (respond (getMessagesByChannelId c) w).1
  = (let found :=
       page_slice p s (reverse (channel_messages (canonical ch) w)) in
     if decide (found = [])
     then mkResponse (JInfo "No messages found for this channel") 404
     else mkResponse (JMessages (populate (userColl w) <$> found)) 200).
Proof.
  intros Hp Hv Hpage Hp1 Hlimit Hs1 Horder. split.
  - intros Hnone. rewrite Hnone in Hlimit. vm_compute in Hlimit. congruence.
  - rewrite (getMessagesByChannelId_run c w ch p s) by done.
    by rewrite sort_desc_in_order.
Qed.

Lemma sample_in_order : created_in_order (channel_messages idC sample_world).
Proof. repeat constructor; simpl; lia. Qed.

Lemma getMessages_page_witness :
  let page (ch : string) (q : gmap string string) :=
    returned_ids
      (respond (getMessagesByChannelId (list_ctx ch q)) sample_world).1 in
  channel_messages idC sample_world = [m1; m2; m3; m4; m5] ∧
  page idC {[ "page" := "1"; "limit" := "2" ]}%string = msg_id <$> [m5; m4] ∧
  page idC {[ "page" := "2"; "limit" := "2" ]}%string = msg_id <$> [m3; m2] ∧
  page idC {[ "page" := "3"; "limit" := "2" ]}%string = msg_id <$> [m1] ∧
  page idC ∅ = msg_id <$> [m5; m4; m3; m2; m1] ∧
  page idC_upper {[ "page" := "1"; "limit" := "2" ]}%string
  = msg_id <$> [m5; m4].
Proof.
  split; [reflexivity|]. split_and!.
  - destruct (getMessages_page
                (list_ctx idC {[ "page" := "1"; "limit" := "2" ]}%string)
                sample_world idC 1 2) as [_ ->];
      [reflexivity|reflexivity|reflexivity|lia|reflexivity|lia
      |exact sample_in_order|reflexivity].
  - destruct (getMessages_page
                (list_ctx idC {[ "page" := "2"; "limit" := "2" ]}%string)
                sample_world idC 2 2) as [_ ->];
      [reflexivity|reflexivity|reflexivity|lia|reflexivity|lia
      |exact sample_in_order|reflexivity].
  - destruct (getMessages_page
                (list_ctx idC {[ "page" := "3"; "limit" := "2" ]}%string)
                sample_world idC 3 2) as [_ ->];
      [reflexivity|reflexivity|reflexivity|lia|reflexivity|lia
      |exact sample_in_order|reflexivity].
  - destruct (getMessages_page (list_ctx idC ∅) sample_world idC 1 50)
      as [_ ->];
      [reflexivity|reflexivity|reflexivity|lia|reflexivity|lia
      |exact sample_in_order|reflexivity].
  - destruct (getMessages_page
                (list_ctx idC_upper {[ "page" := "1"; "limit" := "2" ]}%string)
                sample_world idC_upper 1 2) as [_ ->];
      [reflexivity|reflexivity|reflexivity|lia|reflexivity|lia
      |exact sample_in_order|reflexivity].
Defined.

(** ** The claims on delete, update and the order of effects *)

(** A delete request for an id that no message has is refused like a request
    of a non-author: the permission lookup comes first and fails. *)
Lemma deleteMessage_missing c w messageId :
  param c !! "messageId" = Some messageId → isValid messageId = true →
  (∀ u, param c !! "user" = Some u → isValid u = true) →
  List.find (has_id (canonical messageId)) (messageColl w) = None →
  respond (deleteMessage c) w
  = (mkResponse (JError "You do not have permission to delete messages") 403,
     log_effect (MessageQuery (canonical messageId)) w).
Proof.
  intros Hp Hv Hu Hnone. apply deleteMessage_refused; [done..|].
  apply find_none_intro. intros m Hm. unfold owned_by.
  apply List.find_none with (x := m) in Hnone; [|by apply list_elem_of_In].
  by rewrite Hnone.
Qed.

(** C1: on the delete route the author of a message is refused like anyone
    else.  [m3] is stored and was sent by [idS]; the request that deletes it
    is answered 403 and the message and the channel summary stay as they
    were.  (With the actor bound as the parameter [user], the handler does
    what the claim says: [deleteMessage_non_author], [deleteMessage_author].) *)
Theorem delete_by_author_refused :
  let r := mkRequest DELETE ["delete-message"%string; msg_id m3] ∅ no_body
                     true in
  List.find (has_id (msg_id m3)) (messageColl sample_world) = Some m3 ∧
  sender m3 = Some idS ∧
  serve r sample_world
  = Some (mkResponse
            (JError "You do not have permission to delete messages") 403,
          log_effect (MessageQuery (msg_id m3)) sample_world).
Proof.
  split_and!; [reflexivity..|].
  apply (delete_route_refuses _ _ (msg_id m3)); [reflexivity..|].
  intros m Hm _. simpl in Hm.
  repeat (apply elem_of_cons in Hm as [->|Hm]; [done|]).
  by apply elem_of_nil in Hm.
Qed.

(** C2: on the update route every request is refused, also the author's with
    a non-empty content: [userId] is undefined and fails the identifier
    check, nothing is rewritten and nothing is broadcast.  (With the actor
    bound as the parameter [userId], the handler does what the claim says:
    [updateMessage_author].) *)
Theorem update_by_author_refused :
  let r := mkRequest PUT ["update-message"%string; msg_id m3] ∅
                     (content_body "hello" None) true in
  List.find (has_id (msg_id m3)) (messageColl sample_world) = Some m3 ∧
  sender m3 = Some idS ∧
  serve r sample_world
  = Some (mkResponse
            (JError "Invalid message ID format or user ID format") 400,
          sample_world).
Proof.
  split_and!; [reflexivity..|].
  by apply (update_route_refuses _ _ (msg_id m3)).
Qed.

(** C7: a delete request with a well-formed id that no message has is
    answered 403 (Forbidden), not 404, both when the actor reaches the handler
    as the parameter [user] and on the route as it is mounted. *)
Theorem delete_missing_is_forbidden :
  let r := mkRequest DELETE ["delete-message"%string; idGone] ∅ no_body true in
  isValid idGone = true ∧
  List.find (has_id idGone) (messageColl sample_world) = None ∧
  respond (deleteMessage (actor_ctx "user" idGone idS no_body)) sample_world
  = (mkResponse (JError "You do not have permission to delete messages") 403,
     log_effect (MessageQuery idGone) sample_world) ∧
  serve r sample_world
  = Some (mkResponse
            (JError "You do not have permission to delete messages") 403,
          log_effect (MessageQuery idGone) sample_world).
Proof.
  split_and!; [reflexivity..| |].
  - apply (deleteMessage_missing _ _ idGone); [reflexivity..| |reflexivity].
    intros u. vm_compute. by intros [= <-].
  - by vm_compute.
Qed.

(** C8, as stated, fails: in a successful create and in a successful delete
    the broadcast is not preceded by any Channel Index update. *)
Lemma emit_without_index_update :
  let created :=
    respond (createMessage (create_ctx idC "hi" idS)) sample_world in
  let deleted :=
    respond (deleteMessage (actor_ctx "user" (msg_id m3) idS no_body))
            sample_world in
  status created.1 = 201 ∧ ¬ index_before_emit (trace created.2) ∧
  status deleted.1 = 200 ∧ ¬ index_before_emit (trace deleted.2).
Proof.
  split_and!; [reflexivity| |reflexivity|].
  - intros Hclaim.
    destruct (Hclaim 3%nat (Emit idC "message"
                (PMessage (mkMessage idNew (Some idC) (Some idS) "hi" [] 100
                                     100))))
      as (j & e & Hj & He & Hidx); [reflexivity..|].
    destruct j as [|[|[|j]]]; [| | |lia]; vm_compute in He;
      injection He as <-; discriminate Hidx.
  - intros Hclaim.
    destruct (Hclaim 2%nat (Emit idC "messageDeleted" (PId (msg_id m3))))
      as (j & e & Hj & He & Hidx); [reflexivity..|].
    destruct j as [|[|j]]; [| |lia]; vm_compute in He;
      injection He as <-; discriminate Hidx.
Qed.

(** C8, amended: in every successful create and delete the broadcast comes
    after the Message Store write and immediately before the Channel Index
    update: a created message is broadcast before its id is appended to the
    channel summary, a deletion is broadcast before the id is pulled from
    it. *)
Theorem emit_before_index_update c w :
  (status (respond (createMessage c) w).1 = 201 →
   ∃ ch srv m snd,
     trace (respond (createMessage c) w).2
     = trace w ++ [ChannelQuery (canonical ch); ServerQuery srv;
                   MessageInsert m; Emit ch "message" (PMessage m);
                   ChannelPush (canonical ch) (msg_id m) snd]) ∧
  (status (respond (deleteMessage c) w).1 = 200 →
   ∃ id ch,
     trace (respond (deleteMessage c) w).2
     = trace w ++ [MessageQuery (canonical id); MessageRemove (canonical id);
                   Emit ch "messageDeleted" (PId id);
                   ChannelPull (canonical id)]).
Proof.
  split; [apply createMessage_trace | apply deleteMessage_trace].
Qed.

Lemma emit_before_index_update_witness :
  let c1 := create_ctx idC "hi" idS in
  let c2 := actor_ctx "user" (msg_id m3) idS no_body in
  (status (respond (createMessage c1) sample_world).1 = 201 ∧
   ∃ ch srv m snd,
     trace (respond (createMessage c1) sample_world).2
     = trace sample_world ++ [ChannelQuery (canonical ch); ServerQuery srv;
                   MessageInsert m; Emit ch "message" (PMessage m);
                   ChannelPush (canonical ch) (msg_id m) snd]) ∧
  (status (respond (deleteMessage c2) sample_world).1 = 200 ∧
   ∃ id ch,
     trace (respond (deleteMessage c2) sample_world).2
     = trace sample_world ++ [MessageQuery (canonical id);
                   MessageRemove (canonical id);
                   Emit ch "messageDeleted" (PId id);
                   ChannelPull (canonical id)]).
Proof.
  split.
  - split; [reflexivity|].
    apply (proj1 (emit_before_index_update (create_ctx idC "hi" idS)
                                           sample_world)).
    reflexivity.
  - split; [reflexivity|].
    apply (proj2 (emit_before_index_update
                    (actor_ctx "user" (msg_id m3) idS no_body) sample_world)).
    reflexivity.
Defined.

(** ** What every request keeps true *)

Ltac crunch :=
  repeat (simpl;
          match goal with
          | |- context [match ?x with _ => _ end] =>
              lazymatch x with
              | context [match _ with _ => _ end] => fail
              | _ => destruct x eqn:?
              end
          end).

Lemma createMessage_messages c w :
  let w' := (respond (createMessage c) w).2 in
  messageColl w' = messageColl w ∨
  ∃ m, reactions m = [] ∧ messageColl w' = messageColl w ++ [m].
Proof.
  unfold createMessage. unfold_act. crunch; simpl; try (by left).
  all: right; eexists; (split; [|reflexivity]); reflexivity.
Qed.

Lemma deleteMessage_messages c w :
  let w' := (respond (deleteMessage c) w).2 in
  messageColl w' = messageColl w ∨
  ∃ id, messageColl w' = remove_first (has_id id) (messageColl w).
Proof.
  unfold deleteMessage. unfold_act. crunch; simpl; try (by left).
  all: right; by eexists.
Qed.

Lemma updateMessage_messages c w :
  let w' := (respond (updateMessage c) w).2 in
  messageColl w' = messageColl w ∨
  ∃ id m text t, m ∈ messageColl w ∧
    messageColl w' = update_first (has_id id) (λ _, set_content m text t)
                                  (messageColl w).
Proof.
  unfold updateMessage. unfold_act. crunch; simpl; try (by left).
  all: right; do 4 eexists; split; [|reflexivity].
  all: match goal with
       | H : List.find (has_id _) _ = Some _ |- _ =>
           apply find_has_id in H as [? _]; eassumption
       end.
Qed.

Lemma getMessagesByChannelId_messages c w :
  messageColl (respond (getMessagesByChannelId c) w).2 = messageColl w.
Proof.
  unfold getMessagesByChannelId. unfold_act. crunch; simpl; eauto.
Qed.

(** A toggle stores no id but the one the actor's id is cast to. *)
Lemma toggle_members (Q : ObjectId → Prop) rs sym a rs' :
  toggle rs sym a = Some rs' → (isValid a = true → Q (canonical a)) →
  Forall (λ r, Forall Q (users r)) rs → Forall (λ r, Forall Q (users r)) rs'.
Proof.
  intros Ht HQ. destruct (isValid a) eqn:Ha.
  - apply toggle_toggled in Ht. eapply toggled_members; eauto.
  - unfold toggle in Ht. rewrite Ha in Ht.
    destruct (list_find _ rs) as [[i r]|] eqn:Hfind; [|done].
    apply list_find_split in Hfind as (pre & post & -> & <- & Hpre & Hr).
    match type of Ht with
    | context [list_find ?P (users r)] =>
        destruct (list_find P (users r)) as [[j a']|] eqn:Hu; [|done]
    end.
    intros (Hp & Hq & Hpost)%Forall_middle.
    destruct (_ =? _)%nat; injection Ht as <-.
    + rewrite delete_middle. by apply Forall_app.
    + rewrite insert_middle. apply Forall_app. split; [done|].
      constructor; [|done]. by apply Forall_delete.
Qed.

Lemma toggle_ok rs sym a rs' :
  toggle rs sym a = Some rs' → ledger_ok rs → ledger_ok rs'.
Proof.
  intros Ht [Hne Hids]. split.
  - apply toggle_toggled in Ht. by eapply toggled_nonempty.
  - eapply toggle_members; [done| |done].
    intros Ha. split; [by rewrite isValid_canonical|apply canonical_idem].
Qed.

(** The stored reaction arrays keep these two properties whatever request is
    served. *)
Lemma serve_keeps_ledgers_ok r w resp w' :
  ledgers_ok w → serve r w = Some (resp, w') → ledgers_ok w'.
Proof.
  unfold ledgers_ok, serve, messageRouter. intros Hw.
  destruct (path r) as [|seg [|v [|? ?]]]; try done.
  destruct (bool_decide (v = EmptyString)); [done|].
  repeat (destruct (matches _ _ _ _);
          [simpl; intros [= Hrun]; apply (f_equal snd) in Hrun;
           simpl in Hrun; subst w'|]); [..|done].
  - by rewrite getMessagesByChannelId_messages.
  - destruct (createMessage_messages (bind_param r "channelId" v) w)
      as [-> | (m & Hm & ->)]; [done|].
    apply Forall_app. split; [done|]. constructor; [|done].
    rewrite Hm. by split.
  - destruct (deleteMessage_messages (bind_param r "messageId" v) w)
      as [-> | (id & ->)]; [done|]. by apply Forall_remove_first.
  - destruct (updateMessage_messages (bind_param r "messageId" v) w)
      as [-> | (id & m & text & t & Hin & ->)]; [done|].
    apply Forall_update_first; [done|]. intros _ _ _. simpl.
    eapply Forall_forall in Hw; [|exact Hin]. done.
  - destruct (toggleReaction_messages (bind_param r "messageId" v) w)
      as [_ [-> | (m & a & rs' & Hin & Ht & ->)]]; [done|].
    apply Forall_update_first; [done|]. intros _ _ _. simpl.
    eapply toggle_ok; [done|].
    eapply Forall_forall in Hw; [|exact Hin]. done.
Qed.

(** In every world the server can reach, no stored reaction entry is without
    actors and every stored actor is an id in the spelling of the store.
    (That no actor is twice in an entry is not among what the requests keep
    true: an actor whose id is sent in upper case is stored again.) *)
Theorem reachable_ledgers_ok w : reachable w → ledgers_ok w.
Proof.
  induction 1 as [w Hnil | w t id _ IH | r w resp w' _ IH Hserve].
  - unfold ledgers_ok. rewrite Hnil. constructor.
  - exact IH.
  - by eapply serve_keeps_ledgers_ok.
Qed.

(** ** The handlers when the actor does reach them

    The scenario of the spec with the actor passed as the route parameter
    the handlers read: [idU] may not delete the message of [idS]; [idS]
    updates it and deletes it, after which it is in no collection. *)

Example scenario_with_actor_parameter :
  let by_other := actor_ctx "user" (msg_id m3) idU no_body in
  let update := actor_ctx "userId" (msg_id m3) idS (content_body "hello" None) in
  let by_author := actor_ctx "user" (msg_id m3) idS no_body in
  let refused := respond (deleteMessage by_other) sample_world in
  let updated := respond (updateMessage update) sample_world in
  let deleted := respond (deleteMessage by_author) sample_world in
  status refused.1 = 403 ∧
  messageColl refused.2 = messageColl sample_world ∧
  channelColl refused.2 = channelColl sample_world ∧
  updated.1 = mkResponse (JMessage (set_content m3 "hello" 100)) 200 ∧
  messageColl updated.2 = [m1; m2; set_content m3 "hello" 100; m4; m5] ∧
  status deleted.1 = 200 ∧
  messageColl deleted.2 = [m1; m2; m4; m5] ∧
  messages <$> channelColl deleted.2 = [msg_id <$> [m1; m2; m4; m5]].
Proof. by vm_compute. Qed.

(** Ids are ObjectIds, however a request spells them: a channel id, a sender
    id and an actor id sent in upper case name the stored documents. *)
Example ids_in_upper_case :
  let created :=
    respond (createMessage (create_ctx idC_upper "hi" idS_upper))
            sample_world in
  let deleted :=
    respond (deleteMessage (actor_ctx "user" (msg_id m3) idS_upper no_body))
            sample_world in
  status created.1 = 201 ∧
  last (messageColl created.2)
  = Some (mkMessage idNew (Some idC) (Some idS) "hi" [] 100 100) ∧
  senders <$> channelColl created.2 = [[idS]] ∧
  status deleted.1 = 200 ∧ messageColl deleted.2 = [m1; m2; m4; m5].
Proof. by vm_compute. Qed.

(** * Further properties of the handlers *)

(** ** createMessage *)

Lemma find_some_intro {A} (p : A → bool) (l : list A) x :
  x ∈ l → p x = true → is_Some (List.find p l).
Proof.
  intros Hin Hp. destruct (List.find p l) eqn:Hfind; [by eexists|].
  apply List.find_none with (x := x) in Hfind; [congruence|].
  by apply list_elem_of_In.
Qed.

(** The permission lookup of [createMessage] finds a server exactly when the
    sender has a membership with the role in the channel's server. *)
Lemma permission_lookup srv snd w :
  is_Some (List.find (λ s, bool_decide (srv_id s = srv)
                           && existsb (can_send snd) (members s))
                     (serverColl w))
  ↔ may_send srv snd w.
Proof.
  split.
  - intros [s [Hin Hs]%List.find_some].
    apply andb_true_iff in Hs as [Hid Hmb].
    apply bool_decide_eq_true in Hid.
    apply existsb_exists in Hmb as (mb & Hmb & Hcan).
    apply andb_true_iff in Hcan as [Hu Hr].
    apply bool_decide_eq_true in Hu. apply bool_decide_eq_true in Hr.
    exists s, mb. by rewrite <-!list_elem_of_In in *.
  - intros (s & mb & Hs & Hid & Hmb & Hu & Hr).
    apply (find_some_intro _ _ s); [done|].
    apply andb_true_iff. split; [by apply bool_decide_eq_true|].
    apply existsb_exists. exists mb. split; [by apply list_elem_of_In|].
    unfold can_send. by rewrite !bool_decide_eq_true_2.
Qed.

(** A create request that passes every check: the message is stored with the
    channel, sender and content of the request, no reactions and the time of
    the request; it is broadcast to the channel's room; its id is appended to
    the channel's list and the sender joins the channel's sender set; the
    answer is 201 with the message. *)
Theorem createMessage_created c w ch snd text chan :
  io c = true →
  param c !! "channelId" = Some ch → isValid ch = true →
  b_senderId (json c) = Some snd → isValid snd = true →
  b_content (json c) = Some text → text ≠ EmptyString →
  List.find (is_channel (canonical ch)) (channelColl w) = Some chan →
  may_send (server chan) (canonical snd) w →
  respond (createMessage c) w
  = (mkResponse (JMessage (created_message w ch snd text)) 201,
     mkWorld (messageColl w ++ [created_message w ch snd text])
             (update_first (is_channel (canonical ch))
                           (index_created (freshId w) (canonical snd))
                           (channelColl w))
             (serverColl w) (userColl w) (now w) (freshId w)
             (trace w ++ [ChannelQuery (canonical ch);
                          ServerQuery (server chan);
                          MessageInsert (created_message w ch snd text);
                          Emit ch "message"
                               (PMessage (created_message w ch snd text));
                          ChannelPush (canonical ch) (freshId w)
                                      (canonical snd)])).
Proof.
  intros Hio Hp Hv Hs Hvs Hc Htext Hchan [srv Hsrv]%permission_lookup.
  assert (ch ≠ EmptyString) as Hne by (by intros ->).
  assert (snd ≠ EmptyString) as Hnes by (by intros ->).
  unfold createMessage. rewrite Hio, Hp, Hs, Hc. simpl.
  rewrite !bool_decide_eq_false_2 by done. rewrite Hv, Hvs. simpl.
  unfold_act. rewrite Hv, Hvs, Hio. simpl.
  unfold is_channel in Hchan. rewrite Hchan. simpl. rewrite Hsrv. simpl.
  unfold log_effect, with_messages, with_channels, created_message. simpl.
  by rewrite <-!app_assoc.
Qed.

Lemma createMessage_created_witness :
  may_send idSrv idS empty_channel_world ∧
  respond (createMessage (create_ctx idC "hello" idS)) empty_channel_world
  = (mkResponse
       (JMessage (created_message empty_channel_world idC idS "hello")) 201,
     mkWorld [created_message empty_channel_world idC idS "hello"]
             [mkChannel idC idSrv [idNew] [idS]]
             sample_servers sample_users 100 idNew
             [ChannelQuery idC; ServerQuery idSrv;
              MessageInsert
                (created_message empty_channel_world idC idS "hello");
              Emit idC "message"
                (PMessage
                   (created_message empty_channel_world idC idS "hello"));
              ChannelPush idC idNew idS]).
Proof.
  assert (may_send idSrv idS empty_channel_world) as Hmay.
  { apply permission_lookup. by eexists. }
  split; [exact Hmay|].
  apply (createMessage_created (create_ctx idC "hello" idS)
           empty_channel_world idC idS "hello" (mkChannel idC idSrv [] []));
    solve [reflexivity | done | exact Hmay].
Defined.

(** A create request of a sender who has no membership with the role "send
    messages" in the channel's server is answered 403: no message is stored,
    nothing is broadcast and the channel is not touched; only the two lookups
    happened. *)
Theorem createMessage_forbidden c w ch snd text chan :
  io c = true →
  param c !! "channelId" = Some ch → isValid ch = true →
  b_senderId (json c) = Some snd → isValid snd = true →
  b_content (json c) = Some text → text ≠ EmptyString →
  List.find (is_channel (canonical ch)) (channelColl w) = Some chan →
  ¬ may_send (server chan) (canonical snd) w →
  respond (createMessage c) w
  = (mkResponse (JError "You do not have permission to send messages") 403,
     mkWorld (messageColl w) (channelColl w) (serverColl w) (userColl w)
             (now w) (freshId w)
             (trace w ++ [ChannelQuery (canonical ch);
                          ServerQuery (server chan)])).
Proof.
  intros Hio Hp Hv Hs Hvs Hc Htext Hchan Hmay.
  assert (List.find (λ s, bool_decide (srv_id s = server chan)
                          && existsb (can_send (canonical snd)) (members s))
                    (serverColl w) = None) as Hsrv.
  { apply eq_None_not_Some. by rewrite permission_lookup. }
  assert (ch ≠ EmptyString) as Hne by (by intros ->).
  assert (snd ≠ EmptyString) as Hnes by (by intros ->).
  unfold createMessage. rewrite Hio, Hp, Hs, Hc. simpl.
  rewrite !bool_decide_eq_false_2 by done. rewrite Hv, Hvs. simpl.
  unfold_act. rewrite Hv, Hvs. simpl.
  unfold is_channel in Hchan. rewrite Hchan. simpl. rewrite Hsrv. simpl.
  unfold log_effect. simpl. by rewrite <-!app_assoc.
Qed.

Lemma createMessage_forbidden_witness :
  ¬ may_send idSrv idU sample_world ∧
  respond (createMessage (create_ctx idC "hello" idU)) sample_world
  = (mkResponse (JError "You do not have permission to send messages") 403,
     mkWorld (messageColl sample_world) (channelColl sample_world)
             sample_servers sample_users 100 idNew
             [ChannelQuery idC; ServerQuery idSrv]).
Proof.
  assert (¬ may_send idSrv idU sample_world) as Hmay.
  { rewrite <-permission_lookup. by intros [s Hs]. }
  split; [exact Hmay|].
  apply (createMessage_forbidden (create_ctx idC "hello" idU) sample_world
           idC idU "hello"
           (mkChannel idC idSrv (msg_id <$> [m1; m2; m3; m4; m5]) [idS]));
    solve [reflexivity | done | exact Hmay].
Defined.

(** A create request for a well-formed channel id that no channel has is
    answered 404 after the one lookup; nothing is written or broadcast. *)
Theorem createMessage_unknown_channel c w ch snd text :
  io c = true →
  param c !! "channelId" = Some ch → isValid ch = true →
  b_senderId (json c) = Some snd → isValid snd = true →
  b_content (json c) = Some text → text ≠ EmptyString →
  List.find (is_channel (canonical ch)) (channelColl w) = None →
  respond (createMessage c) w
  = (mkResponse (JError "Channel not found") 404,
     log_effect (ChannelQuery (canonical ch)) w).
Proof.
  intros Hio Hp Hv Hs Hvs Hc Htext Hchan.
  assert (ch ≠ EmptyString) as Hne by (by intros ->).
  assert (snd ≠ EmptyString) as Hnes by (by intros ->).
  unfold createMessage. rewrite Hio, Hp, Hs, Hc. simpl.
  rewrite !bool_decide_eq_false_2 by done. rewrite Hv, Hvs. simpl.
  unfold_act. rewrite Hv. simpl.
  unfold is_channel in Hchan. by rewrite Hchan.
Qed.

Lemma createMessage_unknown_channel_witness :
  respond (createMessage (create_ctx idGone "hello" idS)) sample_world
  = (mkResponse (JError "Channel not found") 404,
     log_effect (ChannelQuery idGone) sample_world).
Proof.
  apply (createMessage_unknown_channel (create_ctx idGone "hello" idS)
           sample_world idGone idS "hello");
    solve [reflexivity | done].
Defined.

(** A create request is turned away before anything is read when the
    Socket.IO server is not set (500), when the channel id, the sender id or
    the content is missing or empty (400), and when the channel id or the
    sender id is not a well-formed identifier (400): the world is the one the
    request found. *)
Theorem createMessage_rejected_early c w :
  io c = false
  ∨ truthy (param c !! "channelId") = false
  ∨ truthy (b_senderId (json c)) = false
  ∨ truthy (b_content (json c)) = false
  ∨ isValidValue (param c !! "channelId") = false
  ∨ isValidValue (b_senderId (json c)) = false →
  respond (createMessage c) w
  = (mkResponse
       (if io c
        then if truthy (param c !! "channelId")
                && truthy (b_senderId (json c)) && truthy (b_content (json c))
             then JError "Invalid ID format"
             else JError "Missing required fields"
        else JError "Socket.IO instance not available")
       (if io c then 400 else 500),
     w).
Proof.
  intros Hbad. unfold createMessage. unfold_act.
  destruct (io c); simpl; [|done].
  destruct (truthy (param c !! "channelId")); simpl; [|done].
  destruct (truthy (b_senderId (json c))); simpl; [|done].
  destruct (truthy (b_content (json c))); simpl; [|done].
  destruct (isValidValue (param c !! "channelId")); simpl; [|done].
  destruct (isValidValue (b_senderId (json c))); simpl; [|done].
  intuition discriminate.
Qed.

Lemma createMessage_rejected_early_witness :
  respond (createMessage (create_ctx idC "hello" "somebody")) sample_world
  = (mkResponse (JError "Invalid ID format") 400, sample_world).
Proof.
  apply (createMessage_rejected_early (create_ctx idC "hello" "somebody")
                                      sample_world).
  do 5 right. reflexivity.
Defined.

(** ** Every request: what the router hands over *)

(** A served request ran one of the five handlers, on a context with the
    request's Socket.IO flag. *)
Lemma serve_handler r w resp w' :
  serve r w = Some (resp, w') →
  ∃ c, io c = req_io r ∧
    (respond (getMessagesByChannelId c) w = (resp, w')
     ∨ respond (createMessage c) w = (resp, w')
     ∨ respond (deleteMessage c) w = (resp, w')
     ∨ respond (updateMessage c) w = (resp, w')
     ∨ respond (toggleReaction c) w = (resp, w')).
Proof.
  unfold serve, messageRouter.
  destruct (path r) as [|seg [|v [|? ?]]]; try done.
  destruct (bool_decide (v = EmptyString)); [done|].
  repeat (destruct (matches _ _ _ _);
          [simpl; intros [= Hrun]; eexists (bind_param r _ v);
           split; [reflexivity|]; rewrite Hrun; tauto|]).
  done.
Qed.

(** ** Every request: what is never touched *)

Lemma handlers_frame c w :
  let unchanged (w' : World) :=
    serverColl w' = serverColl w ∧ userColl w' = userColl w in
  unchanged (respond (getMessagesByChannelId c) w).2 ∧
  unchanged (respond (createMessage c) w).2 ∧
  unchanged (respond (deleteMessage c) w).2 ∧
  unchanged (respond (updateMessage c) w).2 ∧
  unchanged (respond (toggleReaction c) w).2.
Proof.
  repeat split.
  all: unfold getMessagesByChannelId, createMessage, deleteMessage,
         updateMessage, toggleReaction; unfold_act; crunch; done.
Qed.

(** What a handler can do to the channel collection: nothing, the index
    update of a create on the channel of the request, or the index update of
    a delete on the first channel that lists the message. *)
Lemma handlers_channels c w :
  let outcome (w' : World) :=
    channelColl w' = channelColl w
    ∨ (∃ ch msg snd,
         channelColl w'
         = update_first (is_channel ch) (index_created msg snd) (channelColl w))
    ∨ (∃ msg,
         channelColl w'
         = update_first (lists_message msg) (index_deleted msg)
                        (channelColl w)) in
  outcome (respond (getMessagesByChannelId c) w).2 ∧
  outcome (respond (createMessage c) w).2 ∧
  outcome (respond (deleteMessage c) w).2 ∧
  outcome (respond (updateMessage c) w).2 ∧
  outcome (respond (toggleReaction c) w).2.
Proof.
  intros outcome. subst outcome. split_and!.
  - unfold getMessagesByChannelId. unfold_act. crunch; by left.
  - unfold createMessage. unfold_act. crunch; try (by left).
    all: right; left; by do 3 eexists.
  - unfold deleteMessage. unfold_act. crunch; try (by left).
    all: right; right; by eexists.
  - unfold updateMessage. unfold_act. crunch; by left.
  - left. apply toggleReaction_messages.
Qed.

Lemma fmap_update_first {A B} (g : A → B) (p : A → bool) (f : A → A)
    (l : list A) :
  (∀ x, g (f x) = g x) → g <$> update_first p f l = g <$> l.
Proof.
  intros Hg. induction l as [|x l IH]; simpl; [done|].
  destruct (p x); csimpl; [by rewrite Hg|by rewrite IH].
Qed.

Lemma Forall2_update_first {A} (R : A → A → Prop) (p : A → bool) (f : A → A)
    (l : list A) :
  (∀ x, R x x) → (∀ x, R x (f x)) → Forall2 R l (update_first p f l).
Proof.
  intros Hrefl Hf. induction l as [|x l IH]; simpl; [constructor|].
  destruct (p x); constructor; auto.
  clear IH. induction l; constructor; auto.
Qed.

(** No request creates, removes, reorders or re-homes a channel, and none
    touches the servers or the users: the handlers only rewrite the message
    list and the sender set of a channel. *)
Theorem serve_keeps_directory r w resp w' :
  serve r w = Some (resp, w') →
  serverColl w' = serverColl w ∧ userColl w' = userColl w ∧
  ch_id <$> channelColl w' = ch_id <$> channelColl w ∧
  server <$> channelColl w' = server <$> channelColl w.
Proof.
  intros (c & _ & Hrun)%serve_handler.
  pose proof (handlers_frame c w) as Hframe.
  pose proof (handlers_channels c w) as Hch. simpl in Hframe, Hch.
  assert (∀ w1, (channelColl w1 = channelColl w
             ∨ (∃ ch msg snd, channelColl w1
                  = update_first (is_channel ch) (index_created msg snd)
                                 (channelColl w))
             ∨ (∃ msg, channelColl w1
                  = update_first (lists_message msg) (index_deleted msg)
                                 (channelColl w))) →
            ch_id <$> channelColl w1 = ch_id <$> channelColl w ∧
            server <$> channelColl w1 = server <$> channelColl w) as Hkeep.
  { intros w1 [-> | [(ch & msg & snd & ->) | (msg & ->)]]; [done|..];
      by rewrite !fmap_update_first. }
  destruct Hrun as [Hrun|[Hrun|[Hrun|[Hrun|Hrun]]]];
    rewrite Hrun in Hframe, Hch; simpl in Hframe, Hch.
  - destruct Hframe as ((? & ?) & _). destruct Hch as (? & _).
    split_and!; try done; by apply Hkeep.
  - destruct Hframe as (_ & (? & ?) & _). destruct Hch as (_ & ? & _).
    split_and!; try done; by apply Hkeep.
  - destruct Hframe as (_ & _ & (? & ?) & _). destruct Hch as (_ & _ & ? & _).
    split_and!; try done; by apply Hkeep.
  - destruct Hframe as (_ & _ & _ & (? & ?) & _).
    destruct Hch as (_ & _ & _ & ? & _).
    split_and!; try done; by apply Hkeep.
  - destruct Hframe as (_ & _ & _ & _ & (? & ?)).
    destruct Hch as (_ & _ & _ & _ & ?).
    split_and!; try done; by apply Hkeep.
Qed.

Lemma serve_keeps_directory_witness :
  let out :=
    respond (createMessage (create_ctx idC "hello" idS)) empty_channel_world in
  serve (create_request idC "hello" idS) empty_channel_world = Some out ∧
  status out.1 = 201 ∧
  serverColl out.2 = sample_servers ∧ userColl out.2 = sample_users ∧
  ch_id <$> channelColl out.2 = [idC] ∧ server <$> channelColl out.2 = [idSrv].
Proof.
  split; [reflexivity|]. split; [reflexivity|].
  apply (serve_keeps_directory (create_request idC "hello" idS)
           empty_channel_world
           (respond (createMessage (create_ctx idC "hello" idS))
                    empty_channel_world).1).
  reflexivity.
Defined.

(** A property of the outcome of every handler is a property of the outcome
    of every served request. *)
Lemma serve_all (Q : Response * World → Prop) r w out :
  serve r w = Some out →
  (∀ c, io c = req_io r →
     Q (respond (getMessagesByChannelId c) w) ∧
     Q (respond (createMessage c) w) ∧
     Q (respond (deleteMessage c) w) ∧
     Q (respond (updateMessage c) w) ∧
     Q (respond (toggleReaction c) w)) →
  Q out.
Proof.
  destruct out as [resp w']. intros (c & Hio & Hrun)%serve_handler HQ.
  destruct (HQ c Hio) as (? & ? & ? & ? & ?).
  destruct Hrun as [<-|[<-|[<-|[<-|<-]]]]; done.
Qed.

(** ** Every request: broadcasts *)

Ltac trace_leaf :=
  unfold emitted, new_effects; simpl;
  rewrite <-?app_assoc, ?drop_app_length, ?drop_all; simpl.

Lemma handlers_emit c w :
  let ok (out : Response * World) :=
    trace out.2 = trace w ++ new_effects w out.2 ∧
    (emitted w out.2 = []
     ∨ ∃ e, emitted w out.2 = [e] ∧ status out.1 < 400) in
  ok (respond (getMessagesByChannelId c) w) ∧
  ok (respond (createMessage c) w) ∧
  ok (respond (deleteMessage c) w) ∧
  ok (respond (updateMessage c) w) ∧
  ok (respond (toggleReaction c) w).
Proof.
  intros ok. subst ok. split_and!.
  all: unfold getMessagesByChannelId, createMessage, deleteMessage,
         updateMessage, toggleReaction; unfold_act; crunch; trace_leaf.
  all: try (by rewrite ?app_nil_r).
  all: try (by left).
  all: right; eexists; split; [reflexivity|simpl; lia].
Qed.

(** A request adds to the trace and never rewrites it; it broadcasts at most
    one event, and none when its answer is an error (status 400 or more). *)
Theorem serve_broadcasts r w resp w' :
  serve r w = Some (resp, w') →
  trace w' = trace w ++ new_effects w w' ∧
  (emitted w w' = [] ∨ ∃ e, emitted w w' = [e] ∧ status resp < 400).
Proof.
  intros Hserve.
  apply (serve_all
           (λ out, trace out.2 = trace w ++ new_effects w out.2 ∧
                   (emitted w out.2 = []
                    ∨ ∃ e, emitted w out.2 = [e] ∧ status out.1 < 400))
           r w (resp, w') Hserve).
  intros c _. apply handlers_emit.
Qed.

Lemma serve_broadcasts_witness :
  let r := reaction_request (msg_id m1) "heart" idS idC in
  let out :=
    respond (toggleReaction (reaction_ctx (msg_id m1) "heart" idS idC))
            reacted_world in
  serve r reacted_world = Some out ∧
  trace out.2 = trace reacted_world ++ new_effects reacted_world out.2 ∧
  (emitted reacted_world out.2 = []
   ∨ ∃ e, emitted reacted_world out.2 = [e] ∧ status out.1 < 400).
Proof.
  split; [reflexivity|].
  apply (serve_broadcasts (reaction_request (msg_id m1) "heart" idS idC)
           reacted_world
           (respond (toggleReaction (reaction_ctx (msg_id m1) "heart" idS idC))
                    reacted_world).1).
  reflexivity.
Defined.

(** ** Every request: errors and partial writes *)

Lemma remove_first_none {A} (p : A → bool) (l : list A) :
  List.find p l = None → remove_first p l = l.
Proof.
  induction l as [|x l IH]; simpl; [done|].
  destruct (p x); [done|]. intros Hn. by rewrite IH.
Qed.

Ltac orphan_leaf Hall :=
  match goal with
  | Hf : List.find (has_id _) (messageColl _) = Some ?m,
    Hc : channel ?m = None |- _ =>
      apply find_has_id in Hf as [Hin _];
      eapply Forall_forall in Hall; [|exact Hin];
      rewrite Hc in Hall; by destruct Hall
  end.

Lemma handlers_atomic c w :
  io c = true →
  Forall (λ m, is_Some (channel m)) (messageColl w) →
  let ok (out : Response * World) :=
    400 ≤ status out.1 → same_store w out.2 in
  ok (respond (getMessagesByChannelId c) w) ∧
  ok (respond (createMessage c) w) ∧
  ok (respond (deleteMessage c) w) ∧
  ok (respond (updateMessage c) w) ∧
  ok (respond (toggleReaction c) w).
Proof.
  intros Hio Hall ok. subst ok. unfold same_store. split_and!.
  all: unfold getMessagesByChannelId, createMessage, deleteMessage,
         updateMessage, toggleReaction; unfold_act; rewrite ?Hio; crunch.
  all: try (intros _; by repeat split).
  all: try (simpl; lia).
  all: simpl in *.
  all: try (intros _; rewrite remove_first_none by done; by repeat split).
  all: orphan_leaf Hall.
Qed.

(** With the Socket.IO server set and every stored message in a channel, a
    request that is answered with an error (status 400 or more) leaves the
    four collections as they were: no partial write is visible. *)
Theorem serve_error_changes_nothing r w resp w' :
  req_io r = true →
  Forall (λ m, is_Some (channel m)) (messageColl w) →
  serve r w = Some (resp, w') → 400 ≤ status resp →
  same_store w w'.
Proof.
  intros Hio Hall Hserve.
  apply (serve_all (λ out, 400 ≤ status out.1 → same_store w out.2)
                   r w (resp, w') Hserve).
  intros c Hc. apply handlers_atomic; [congruence|done].
Qed.

Lemma serve_error_changes_nothing_witness :
  let r := create_request idC "hello" idU in
  let out := respond (createMessage (create_ctx idC "hello" idU)) sample_world in
  serve r sample_world = Some out ∧ status out.1 = 403 ∧
  same_store sample_world out.2.
Proof.
  split; [reflexivity|]. split; [reflexivity|].
  apply (serve_error_changes_nothing (create_request idC "hello" idU)
           sample_world
           (respond (createMessage (create_ctx idC "hello" idU))
                    sample_world).1).
  - reflexivity.
  - simpl. repeat constructor; by eexists.
  - reflexivity.
  - vm_compute. discriminate.
Defined.

(** ** Requests on one message: what happens to the message collection *)

Lemma update_first_found {A} (p : A → bool) (f : A → A) (l : list A) x :
  List.find p l = Some x → update_first p (λ _, f x) l = update_first p f l.
Proof.
  induction l as [|y l IH]; simpl; [done|].
  destruct (p y); [by intros [= ->]|]. intros Hx. by rewrite IH.
Qed.

Lemma find_update_first_other {A} (p q : A → bool) (f : A → A) (l : list A) :
  (∀ x, p x = true → q x = false ∧ q (f x) = false) →
  List.find q (update_first p f l) = List.find q l.
Proof.
  intros Hpq. induction l as [|y l IH]; simpl; [done|].
  destruct (p y) eqn:Hy; simpl.
  - destruct (Hpq y Hy) as [-> ->]. done.
  - by rewrite IH.
Qed.

Lemma find_remove_first_other {A} (p q : A → bool) (l : list A) :
  (∀ x, p x = true → q x = false) →
  List.find q (remove_first p l) = List.find q l.
Proof.
  intros Hpq. induction l as [|y l IH]; simpl; [done|].
  destruct (p y) eqn:Hy; simpl.
  - by rewrite (Hpq y Hy).
  - by rewrite IH.
Qed.

Lemma deleteMessage_messages_at c w :
  let w' := (respond (deleteMessage c) w).2 in
  messageColl w' = messageColl w
  ∨ messageColl w' = remove_first (has_id (target c)) (messageColl w).
Proof.
  unfold deleteMessage, target. unfold_act. crunch; simpl; try (by left).
  all: by right.
Qed.

Lemma updateMessage_messages_at c w :
  let w' := (respond (updateMessage c) w).2 in
  messageColl w' = messageColl w
  ∨ ∃ m text, List.find (has_id (target c)) (messageColl w) = Some m ∧
      messageColl w' = update_first (has_id (target c))
                         (λ _, set_content m text (now w)) (messageColl w).
Proof.
  unfold updateMessage, target. unfold_act. crunch; simpl; try (by left).
  all: right; do 2 eexists; split; [|reflexivity]; reflexivity.
Qed.

Lemma toggleReaction_messages_at c w :
  let w' := (respond (toggleReaction c) w).2 in
  messageColl w' = messageColl w
  ∨ ∃ m a rs', List.find (has_id (target c)) (messageColl w) = Some m ∧
      toggle (reactions m) (b_emoji (json c)) a = Some rs' ∧
      messageColl w' = update_first (has_id (target c))
                         (λ _, set_updatedAt (set_reactions m rs') (now w))
                         (messageColl w).
Proof.
  unfold toggleReaction, target.
  destruct (negb _ || negb _); [by left|].
  unfold_act. simpl.
  destruct (isValid _); [|by left]. simpl.
  destruct (List.find _ (messageColl w)) as [m|] eqn:Hm; [|by left].
  destruct (find_has_id _ _ _ Hm) as [_ Hid].
  destruct (b_user (json c)) as [[[a|]]|]; simpl; [|by left..].
  destruct (toggle _ _ a) as [rs'|] eqn:Ht; [|by left].
  destruct (io c); right; exists m, a, rs'; simpl; by rewrite Hid.
Qed.

(** A delete, an update and a reaction request leave every message with
    another id than the one they name exactly as it is stored. *)
Theorem other_messages_untouched c w id :
  id ≠ target c →
  List.find (has_id id) (messageColl (respond (deleteMessage c) w).2)
  = List.find (has_id id) (messageColl w) ∧
  List.find (has_id id) (messageColl (respond (updateMessage c) w).2)
  = List.find (has_id id) (messageColl w) ∧
  List.find (has_id id) (messageColl (respond (toggleReaction c) w).2)
  = List.find (has_id id) (messageColl w).
Proof.
  intros Hid.
  assert (∀ x, has_id (target c) x = true → has_id id x = false) as Hother.
  { intros x Hx. unfold has_id in *. apply bool_decide_eq_true in Hx.
    apply bool_decide_eq_false. congruence. }
  split_and!.
  - destruct (deleteMessage_messages_at c w) as [-> | ->]; [done|].
    by apply find_remove_first_other.
  - destruct (updateMessage_messages_at c w)
      as [-> | (m & text & Hm & ->)]; [done|].
    apply find_update_first_other. intros x Hx. split; [by apply Hother|].
    apply Hother. destruct (find_has_id _ _ _ Hm) as [_ Hm'].
    unfold has_id. simpl. by apply bool_decide_eq_true.
  - destruct (toggleReaction_messages_at c w)
      as [-> | (m & a & rs' & Hm & _ & ->)]; [done|].
    apply find_update_first_other. intros x Hx. split; [by apply Hother|].
    apply Hother. destruct (find_has_id _ _ _ Hm) as [_ Hm'].
    unfold has_id. simpl. by apply bool_decide_eq_true.
Qed.

Lemma other_messages_untouched_witness :
  let c := actor_ctx "user" (msg_id m3) idS no_body in
  status (respond (deleteMessage c) sample_world).1 = 200 ∧
  List.find (has_id (msg_id m4))
            (messageColl (respond (deleteMessage c) sample_world).2)
  = Some m4.
Proof.
  split; [reflexivity|].
  destruct (other_messages_untouched
              (actor_ctx "user" (msg_id m3) idS no_body) sample_world
              (msg_id m4)) as (-> & _ & _); [by vm_compute|reflexivity].
Defined.

(** An update request, whatever it is and however it ends, rewrites at most
    the content and the last-modified time of stored messages: their ids,
    channels, senders, creation times and reactions, their number and order,
    and the channel collection stay as they are. *)
Theorem updateMessage_rewrites_content_only c w :
  identity_of <$> messageColl (respond (updateMessage c) w).2
  = identity_of <$> messageColl w ∧
  reactions <$> messageColl (respond (updateMessage c) w).2
  = reactions <$> messageColl w ∧
  channelColl (respond (updateMessage c) w).2 = channelColl w.
Proof.
  split_and!.
  - destruct (updateMessage_messages_at c w)
      as [-> | (m & text & Hm & ->)]; [done|].
    rewrite (update_first_found _ (λ m, set_content m text (now w)))
      by done.
    by apply fmap_update_first.
  - destruct (updateMessage_messages_at c w)
      as [-> | (m & text & Hm & ->)]; [done|].
    rewrite (update_first_found _ (λ m, set_content m text (now w)))
      by done.
    by apply fmap_update_first.
  - unfold updateMessage. unfold_act. by crunch.
Qed.

(** A reaction request, whatever it is and however it ends, rewrites at most
    the reactions and the last-modified time of stored messages: the id, the
    channel, the sender, the content and the creation time of every message,
    the number and order of the messages, and the channel collection stay as
    they are. *)
Theorem toggleReaction_rewrites_reactions_only c w :
  outside_reactions <$> messageColl (respond (toggleReaction c) w).2
  = outside_reactions <$> messageColl w ∧
  channelColl (respond (toggleReaction c) w).2 = channelColl w.
Proof.
  split; [|apply toggleReaction_messages].
  destruct (toggleReaction_messages_at c w)
    as [-> | (m & a & rs' & Hm & _ & ->)]; [done|].
  rewrite (update_first_found _
             (λ m, set_updatedAt (set_reactions m rs') (now w))) by done.
  by apply fmap_update_first.
Qed.

(** ** Writes that are not rolled back *)

(** Without the Socket.IO server, a delete request of the sender still
    removes the message, then fails on the broadcast: the answer is 500 and
    the channel still lists the id of the message that is gone. *)
Theorem deleteMessage_without_io c w messageId actor m ch :
  param c !! "messageId" = Some messageId → isValid messageId = true →
  param c !! "user" = Some actor → isValid actor = true →
  List.find (has_id (canonical messageId)) (messageColl w) = Some m →
  sender m = Some (canonical actor) → channel m = Some ch → io c = false →
  respond (deleteMessage c) w
  = (mkResponse (JError "Failed to delete message") 500,
     mkWorld (remove_first (has_id (canonical messageId)) (messageColl w))
             (channelColl w) (serverColl w) (userColl w) (now w) (freshId w)
             (trace w ++ [MessageQuery (canonical messageId);
                          MessageRemove (canonical messageId)])).
Proof.
  intros Hp Hv Hu Hva Hfind Hs Hch Hio.
  assert (List.find (owned_by (canonical messageId) (Some (canonical actor)))
                    (messageColl w) = Some m)
    as Hown.
  { apply (find_stronger (has_id (canonical messageId))); [done| |].
    - destruct (find_has_id _ _ _ Hfind) as [_ Hid]. unfold owned_by, has_id.
      by rewrite !bool_decide_eq_true_2.
    - unfold owned_by. by intros y [? _]%andb_true_iff. }
  assert (messageId ≠ EmptyString) as Hne by (by intros ->).
  unfold deleteMessage. rewrite Hp, Hu. simpl.
  rewrite bool_decide_eq_false_2 by done. rewrite Hv. simpl.
  unfold_act. rewrite Hv, Hva, Hio. simpl. rewrite Hown. simpl.
  rewrite Hfind, Hch. simpl.
  unfold log_effect, with_messages. simpl. by rewrite <-!app_assoc.
Qed.

Lemma deleteMessage_without_io_witness :
  let c := mkContext false {[ "messageId" := msg_id m3; "user" := idS ]}%string
                     ∅ no_body in
  respond (deleteMessage c) sample_world
  = (mkResponse (JError "Failed to delete message") 500,
     mkWorld [m1; m2; m4; m5] (channelColl sample_world) sample_servers
             sample_users 100 idNew
             [MessageQuery (msg_id m3); MessageRemove (msg_id m3)]) ∧
  msg_id m3 ∈ messages (mkChannel idC idSrv (msg_id <$> [m1; m2; m3; m4; m5])
                                  [idS]).
Proof.
  split.
  - apply (deleteMessage_without_io
             (mkContext false
                {[ "messageId" := msg_id m3; "user" := idS ]}%string ∅ no_body)
             sample_world (msg_id m3) idS m3 idC);
      reflexivity.
  - by_compute.
Defined.

(** A delete request of the sender for a message that has no channel
    reference removes the message and then answers 400: nothing is broadcast
    and no channel list is updated. *)
Theorem deleteMessage_orphan c w messageId actor m :
  param c !! "messageId" = Some messageId → isValid messageId = true →
  param c !! "user" = Some actor → isValid actor = true →
  List.find (has_id (canonical messageId)) (messageColl w) = Some m →
  sender m = Some (canonical actor) → channel m = None →
  respond (deleteMessage c) w
  = (mkResponse (JError "Invalid channel ID") 400,
     mkWorld (remove_first (has_id (canonical messageId)) (messageColl w))
             (channelColl w) (serverColl w) (userColl w) (now w) (freshId w)
             (trace w ++ [MessageQuery (canonical messageId);
                          MessageRemove (canonical messageId)])).
Proof.
  intros Hp Hv Hu Hva Hfind Hs Hch.
  assert (List.find (owned_by (canonical messageId) (Some (canonical actor)))
                    (messageColl w) = Some m)
    as Hown.
  { apply (find_stronger (has_id (canonical messageId))); [done| |].
    - destruct (find_has_id _ _ _ Hfind) as [_ Hid]. unfold owned_by, has_id.
      by rewrite !bool_decide_eq_true_2.
    - unfold owned_by. by intros y [? _]%andb_true_iff. }
  assert (messageId ≠ EmptyString) as Hne by (by intros ->).
  unfold deleteMessage. rewrite Hp, Hu. simpl.
  rewrite bool_decide_eq_false_2 by done. rewrite Hv. simpl.
  unfold_act. rewrite Hv, Hva. simpl. rewrite Hown. simpl.
  rewrite Hfind, Hch. simpl.
  unfold log_effect, with_messages. simpl. by rewrite <-!app_assoc.
Qed.

Lemma deleteMessage_orphan_witness :
  respond (deleteMessage (actor_ctx "user" (msg_id m1) idS no_body))
          orphan_world
  = (mkResponse (JError "Invalid channel ID") 400,
     mkWorld [] (channelColl orphan_world) sample_servers sample_users 100
             idNew [MessageQuery (msg_id m1); MessageRemove (msg_id m1)]).
Proof.
  apply (deleteMessage_orphan (actor_ctx "user" (msg_id m1) idS no_body)
           orphan_world (msg_id m1) idS
           (mkMessage (msg_id m1) None (Some idS) "hi" [] 1 1));
    reflexivity.
Defined.

(** Without the Socket.IO server, an update request of the sender still
    rewrites the content, then fails on the broadcast: the answer is 500 and
    the new content is stored. *)
Theorem updateMessage_without_io c w messageId actor text m ch :
  param c !! "messageId" = Some messageId → isValid messageId = true →
  param c !! "userId" = Some actor → isValid actor = true →
  b_content (json c) = Some text → text ≠ EmptyString →
  List.find (has_id (canonical messageId)) (messageColl w) = Some m →
  sender m = Some (canonical actor) → channel m = Some ch → io c = false →
  respond (updateMessage c) w
  = (mkResponse (JError "Failed to update message") 500,
     mkWorld (update_first (has_id (canonical messageId))
                (λ _, set_content m text (now w)) (messageColl w))
             (channelColl w) (serverColl w) (userColl w) (now w) (freshId w)
             (trace w ++ [MessageQuery (canonical messageId);
                          MessageStore (set_content m text (now w))])).
Proof.
  intros Hp Hv Hu Hva Hc Htext Hfind Hs Hch Hio.
  assert (List.find (owned_by (canonical messageId) (Some (canonical actor)))
                    (messageColl w) = Some m)
    as Hown.
  { apply (find_stronger (has_id (canonical messageId))); [done| |].
    - destruct (find_has_id _ _ _ Hfind) as [_ Hid]. unfold owned_by, has_id.
      by rewrite !bool_decide_eq_true_2.
    - unfold owned_by. by intros y [? _]%andb_true_iff. }
  assert (messageId ≠ EmptyString) as Hne by (by intros ->).
  unfold updateMessage. rewrite Hp, Hu, Hc. simpl.
  rewrite !bool_decide_eq_false_2 by done. rewrite Hv, Hva. simpl.
  unfold_act. rewrite Hv, Hva, Hio. simpl. rewrite Hown. simpl.
  rewrite Hfind. simpl. rewrite Hch. simpl.
  unfold log_effect, with_messages. simpl. by rewrite <-!app_assoc.
Qed.

Lemma updateMessage_without_io_witness :
  let c := mkContext false
             {[ "messageId" := msg_id m3; "userId" := idS ]}%string ∅
             (content_body "hello" None) in
  respond (updateMessage c) sample_world
  = (mkResponse (JError "Failed to update message") 500,
     mkWorld [m1; m2; set_content m3 "hello" 100; m4; m5]
             (channelColl sample_world) sample_servers sample_users 100 idNew
             [MessageQuery (msg_id m3);
              MessageStore (set_content m3 "hello" 100)]).
Proof.
  apply (updateMessage_without_io
           (mkContext false
              {[ "messageId" := msg_id m3; "userId" := idS ]}%string ∅
              (content_body "hello" None))
           sample_world (msg_id m3) idS "hello" m3 idC);
    solve [reflexivity | done].
Defined.

(** ** Requests that are turned away *)

(** A list request without channel id, or with one that is not a well-formed
    identifier, is answered 400 before the database is queried, whatever its
    page and limit. *)
Theorem getMessages_rejected_early c w :
  isValidValue (param c !! "channelId") = false →
  respond (getMessagesByChannelId c) w
  = (mkResponse
       (if truthy (param c !! "channelId")
        then JError "Invalid channel ID format"
        else JError "Channel ID is required") 400,
     w).
Proof.
  intros Hbad. unfold getMessagesByChannelId.
  destruct (truthy (param c !! "channelId")); simpl; [|done].
  by rewrite Hbad.
Qed.

Lemma getMessages_rejected_early_witness :
  respond (getMessagesByChannelId (list_ctx "general" ∅)) sample_world
  = (mkResponse (JError "Invalid channel ID format") 400, sample_world).
Proof.
  apply (getMessages_rejected_early (list_ctx "general" ∅) sample_world).
  reflexivity.
Defined.

(** A delete request without message id, or with one that is not a
    well-formed identifier, is answered 400 and nothing is read. *)
Theorem deleteMessage_rejected_early c w :
  isValidValue (param c !! "messageId") = false →
  respond (deleteMessage c) w
  = (mkResponse
       (if truthy (param c !! "messageId")
        then JError "Invalid message ID format"
        else JError "Message ID is required") 400,
     w).
Proof.
  intros Hbad. unfold deleteMessage.
  destruct (truthy (param c !! "messageId")); simpl; [|done].
  by rewrite Hbad.
Qed.

Lemma deleteMessage_rejected_early_witness :
  respond (deleteMessage (actor_ctx "user" "42" idS no_body)) sample_world
  = (mkResponse (JError "Invalid message ID format") 400, sample_world).
Proof.
  apply (deleteMessage_rejected_early (actor_ctx "user" "42" idS no_body)
                                      sample_world).
  reflexivity.
Defined.

(** The actor of a delete request is not checked for well-formedness: an
    actor that is not a well-formed identifier makes the permission lookup
    throw, and the request is answered 500, not 400 or 403; nothing is read
    or written. *)
Theorem deleteMessage_malformed_actor c w messageId actor :
  param c !! "messageId" = Some messageId → isValid messageId = true →
  param c !! "user" = Some actor → isValid actor = false →
  respond (deleteMessage c) w
  = (mkResponse (JError "Failed to delete message") 500, w).
Proof.
  intros Hp Hv Hu Hva.
  assert (messageId ≠ EmptyString) as Hne by (by intros ->).
  unfold deleteMessage. rewrite Hp, Hu. simpl.
  rewrite bool_decide_eq_false_2 by done. rewrite Hv. simpl.
  unfold_act. by rewrite Hv, Hva.
Qed.

Lemma deleteMessage_malformed_actor_witness :
  respond (deleteMessage (actor_ctx "user" (msg_id m3) "somebody" no_body))
          sample_world
  = (mkResponse (JError "Failed to delete message") 500, sample_world).
Proof.
  apply (deleteMessage_malformed_actor
           (actor_ctx "user" (msg_id m3) "somebody" no_body) sample_world
           (msg_id m3) "somebody");
    reflexivity.
Defined.

(** An update request is answered 400, with nothing read, when the message
    id is missing, when the message id or the actor is not a well-formed
    identifier, and when the content is missing or empty; the three checks
    are made in this order. *)
Theorem updateMessage_rejected_early c w :
  isValidValue (param c !! "messageId") = false
  ∨ isValidValue (param c !! "userId") = false
  ∨ truthy (b_content (json c)) = false →
  respond (updateMessage c) w
  = (mkResponse
       (if negb (truthy (param c !! "messageId"))
        then JError "Message ID is required"
        else if isValidValue (param c !! "messageId")
                && isValidValue (param c !! "userId")
        then JError "Content is required"
        else JError "Invalid message ID format or user ID format") 400,
     w).
Proof.
  intros Hbad. unfold updateMessage.
  destruct (truthy (param c !! "messageId")); simpl; [|done].
  destruct (isValidValue (param c !! "messageId")); simpl; [|done].
  destruct (isValidValue (param c !! "userId")); simpl; [|done].
  destruct (truthy (b_content (json c))); simpl; [|done].
  intuition discriminate.
Qed.

Lemma updateMessage_rejected_early_witness :
  respond (updateMessage
             (actor_ctx "userId" (msg_id m3) idS (content_body EmptyString None)))
          sample_world
  = (mkResponse (JError "Content is required") 400, sample_world).
Proof.
  apply (updateMessage_rejected_early
           (actor_ctx "userId" (msg_id m3) idS (content_body EmptyString None))
           sample_world).
  right. right. reflexivity.
Defined.

(** An update request whose actor is not the sender of the message, or whose
    message does not exist, is answered 403 and changes nothing; only the
    permission lookup happened. *)
Theorem updateMessage_refused c w messageId actor text :
  param c !! "messageId" = Some messageId → isValid messageId = true →
  param c !! "userId" = Some actor → isValid actor = true →
  b_content (json c) = Some text → text ≠ EmptyString →
  (∀ m, m ∈ messageColl w → msg_id m = canonical messageId →
     sender m ≠ Some (canonical actor)) →
  respond (updateMessage c) w
  = (mkResponse (JError "You do not have permission to update messages") 403,
     log_effect (MessageQuery (canonical messageId)) w).
Proof.
  intros Hp Hv Hu Hva Hc Htext Hother.
  assert (List.find (owned_by (canonical messageId) (Some (canonical actor)))
                    (messageColl w) = None)
    as Hown.
  { apply find_none_intro. intros m Hm. unfold owned_by, has_id.
    destruct (bool_decide_reflect (msg_id m = canonical messageId)) as [Hid|];
      [|done].
    simpl. apply bool_decide_eq_false. by apply Hother. }
  assert (messageId ≠ EmptyString) as Hne by (by intros ->).
  unfold updateMessage. rewrite Hp, Hu, Hc. simpl.
  rewrite !bool_decide_eq_false_2 by done. rewrite Hv, Hva. simpl.
  unfold_act. rewrite Hv, Hva. simpl. by rewrite Hown.
Qed.

Lemma updateMessage_refused_witness :
  let c := actor_ctx "userId" (msg_id m3) idU (content_body "hello" None) in
  sender m3 = Some idS ∧
  respond (updateMessage c) sample_world
  = (mkResponse (JError "You do not have permission to update messages") 403,
     log_effect (MessageQuery (msg_id m3)) sample_world).
Proof.
  split; [reflexivity|].
  apply (updateMessage_refused
           (actor_ctx "userId" (msg_id m3) idU (content_body "hello" None))
           sample_world (msg_id m3) idU "hello");
    try solve [reflexivity | done].
  intros m Hm _. simpl in Hm.
  repeat (apply elem_of_cons in Hm as [->|Hm]; [done|]).
  by apply elem_of_nil in Hm.
Defined.

(** A reaction request with well-formed ids for a message that does not
    exist is answered 404 after the one lookup. *)
Theorem toggleReaction_missing_message c w messageId feed :
  param c !! "messageId" = Some messageId → isValid messageId = true →
  b_conversationId (json c) = Some feed → isValid feed = true →
  List.find (has_id (canonical messageId)) (messageColl w) = None →
  respond (toggleReaction c) w
  = (mkResponse (JError "Message not found") 404,
     log_effect (MessageQuery (canonical messageId)) w).
Proof.
  intros Hp Hv Hc Hvc Hnone.
  unfold toggleReaction. rewrite Hp, Hc. simpl. rewrite Hv, Hvc. simpl.
  unfold_act. rewrite Hv. simpl. by rewrite Hnone.
Qed.

Lemma toggleReaction_missing_message_witness :
  respond (toggleReaction (reaction_ctx idGone "heart" idS idC)) sample_world
  = (mkResponse (JError "Message not found") 404,
     log_effect (MessageQuery idGone) sample_world).
Proof.
  apply (toggleReaction_missing_message
           (reaction_ctx idGone "heart" idS idC) sample_world idGone idC);
    reflexivity.
Defined.

(** A reaction request on an existing message whose body has no user, or a
    user without id, or a user whose id is not a well-formed identifier and
    is in no entry of the symbol, is answered 500 and the message is not
    saved: only the lookup happened. *)
Theorem toggleReaction_unusable_actor c w messageId feed m :
  param c !! "messageId" = Some messageId → isValid messageId = true →
  b_conversationId (json c) = Some feed → isValid feed = true →
  List.find (has_id (canonical messageId)) (messageColl w) = Some m →
  match b_user (json c) ≫= ref_id with
  | None => True
  | Some a => isValid a = false ∧
              ∀ r, r ∈ reactions m → emoji r = b_emoji (json c) → a ∉ users r
  end →
  respond (toggleReaction c) w
  = (mkResponse (JError "Failed to add reaction") 500,
     log_effect (MessageQuery (canonical messageId)) w).
Proof.
  intros Hp Hv Hc Hvc Hm Hactor.
  unfold toggleReaction. rewrite Hp, Hc. simpl. rewrite Hv, Hvc. simpl.
  unfold_act. rewrite Hv. simpl. rewrite Hm. simpl.
  change (option_bind UserRef string ref_id (b_user (json c)))
    with (b_user (json c) ≫= ref_id).
  destruct (b_user (json c) ≫= ref_id) as [a|] eqn:Hu; simpl in *; [|done].
  destruct Hactor as [Ha Hnot].
  assert (toggle (reactions m) (b_emoji (json c)) a = None) as ->; [|done].
  unfold toggle. rewrite Ha.
  destruct (list_find _ (reactions m)) as [[i r]|] eqn:Hfind; [|done].
  apply list_find_Some in Hfind as (Hi & Hr & _).
  match goal with
  | |- context [list_find ?P (users r)] =>
      destruct (list_find P (users r)) as [[j a']|] eqn:Hj; [|done]
  end.
  apply list_find_Some in Hj as (Hj & -> & _).
  destruct (Hnot r); [by eapply list_elem_of_lookup_2|done|].
  by eapply list_elem_of_lookup_2.
Qed.

Lemma toggleReaction_unusable_actor_witness :
  respond (toggleReaction (reaction_ctx (msg_id m1) "heart" "somebody" idC))
          sample_world
  = (mkResponse (JError "Failed to add reaction") 500,
     log_effect (MessageQuery (msg_id m1)) sample_world).
Proof.
  apply (toggleReaction_unusable_actor
           (reaction_ctx (msg_id m1) "heart" "somebody" idC)
           sample_world (msg_id m1) idC m1);
    try reflexivity.
  split; [reflexivity|]. intros r Hr. by apply elem_of_nil in Hr.
Defined.

(** ** What a list request returns *)

Lemma insert_desc_elem m (l : list Message) x :
  x ∈ insert_desc m l ↔ x = m ∨ x ∈ l.
Proof.
  induction l as [|y l IH]; simpl.
  - rewrite list_elem_of_singleton, elem_of_nil. tauto.
  - destruct (createdAt y <=? createdAt m).
    + by rewrite elem_of_cons.
    + rewrite !elem_of_cons, IH. tauto.
Qed.

Lemma sort_desc_elem (l : list Message) x : x ∈ sort_desc l ↔ x ∈ l.
Proof.
  induction l as [|y l IH]; simpl; [done|].
  rewrite insert_desc_elem, elem_of_cons, IH. tauto.
Qed.

Lemma insert_desc_newest_first m (l : list Message) :
  newest_first l → newest_first (insert_desc m l).
Proof.
  unfold newest_first. induction 1 as [|y l Hl IH Hy]; simpl.
  - repeat constructor.
  - destruct (Z.leb_spec (createdAt y) (createdAt m)).
    + constructor; [by constructor|]. constructor; [done|].
      eapply Forall_impl; [exact Hy|]. simpl. intros z Hz. lia.
    + constructor; [done|]. apply Forall_forall. intros z Hz.
      apply insert_desc_elem in Hz as [->|Hz]; [lia|].
      eapply Forall_forall in Hy; [|exact Hz]. done.
Qed.

(** The sort of the model sorts, whatever the creation times. *)
Lemma sort_desc_newest_first (l : list Message) : newest_first (sort_desc l).
Proof.
  induction l as [|m l IH]; simpl; [constructor|].
  by apply insert_desc_newest_first.
Qed.

Lemma newest_first_app (l k : list Message) :
  newest_first (l ++ k) → newest_first l ∧ newest_first k.
Proof.
  unfold newest_first. induction l as [|x l IH]; simpl.
  - intros Hk. split; [constructor|done].
  - intros [Hl Hx]%StronglySorted_inv. apply IH in Hl as [Hl Hk].
    split; [|done]. constructor; [done|].
    by apply Forall_app in Hx as [Hx _].
Qed.

Lemma page_slice_newest_first p s (l : list Message) :
  newest_first l → newest_first (page_slice p s l).
Proof.
  intros Hl. unfold page_slice.
  rewrite <-(take_drop (Z.to_nat ((p - 1) * s)) l) in Hl.
  apply newest_first_app in Hl as [_ Hl].
  rewrite <-(take_drop (Z.to_nat s) (drop _ l)) in Hl.
  by apply newest_first_app in Hl as [Hl _].
Qed.

(** The messages of a successful list answer, whatever the store holds: at
    most [limit] of them, each a stored message of the channel asked for
    with its sender populated from the user collection, and none older than
    one that follows it. *)
Theorem getMessages_page_contents c w ch p s ms :
  param c !! "channelId" = Some ch → isValid ch = true →
  parseInt (or_default (query c !! "page") "1") = Num p → 1 ≤ p →
  parseInt (or_default (query c !! "limit") "50") = Num s → 1 ≤ s →
  body (respond (getMessagesByChannelId c) w).1 = JMessages ms →
  (length ms ≤ Z.to_nat s)%nat ∧
  Forall (λ pm, pm_message pm ∈ messageColl w ∧
                channel (pm_message pm) = Some (canonical ch) ∧
                pm = populate (userColl w) (pm_message pm)) ms ∧
  newest_first (pm_message <$> ms).
Proof.
  intros Hp Hv Hpage Hp1 Hlimit Hs1.
  rewrite (getMessagesByChannelId_run c w ch p s) by done. simpl.
  set (found := page_slice p s (sort_desc (channel_messages (canonical ch) w))).
  destruct (decide (found = [])); simpl; [done|]. intros [= <-].
  assert (found ⊆ channel_messages (canonical ch) w) as Hsub.
  { intros x Hx. apply sort_desc_elem. unfold found, page_slice in Hx.
    by apply subseteq_take, subseteq_drop in Hx. }
  split_and!.
  - rewrite length_fmap. unfold found, page_slice. rewrite length_take. lia.
  - apply Forall_fmap, Forall_forall. intros m Hm%Hsub. simpl.
    unfold channel_messages in Hm.
    apply list_elem_of_In, List.filter_In in Hm as [Hin Hch].
    apply bool_decide_eq_true in Hch. by rewrite <-list_elem_of_In in Hin.
  - rewrite <-list_fmap_compose.
    assert (pm_message ∘ populate (userColl w) = id) as -> by done.
    rewrite list_fmap_id. apply page_slice_newest_first, sort_desc_newest_first.
Qed.

Lemma getMessages_page_contents_witness :
  let c := list_ctx idC {[ "page" := "2"; "limit" := "2" ]}%string in
  body (respond (getMessagesByChannelId c) sample_world).1
  = JMessages (populate sample_users <$> [m3; m2]) ∧
  (length (populate sample_users <$> [m3; m2]) ≤ Z.to_nat 2)%nat ∧
  Forall (λ pm, pm_message pm ∈ messageColl sample_world ∧
                channel (pm_message pm) = Some idC ∧
                pm = populate (userColl sample_world) (pm_message pm))
         (populate sample_users <$> [m3; m2]) ∧
  newest_first (pm_message <$> (populate sample_users <$> [m3; m2])).
Proof.
  split; [reflexivity|].
  apply (getMessages_page_contents
           (list_ctx idC {[ "page" := "2"; "limit" := "2" ]}%string)
           sample_world idC 2 2);
    solve [reflexivity | lia].
Defined.

Lemma page_slice_lookup {A} (p s k : Z) (l : list A) :
  1 ≤ p → 0 ≤ k < s →
  page_slice p s l !! Z.to_nat k = l !! Z.to_nat ((p - 1) * s + k).
Proof.
  intros Hp Hk. unfold page_slice.
  rewrite lookup_take_lt by lia. rewrite lookup_drop. f_equal. nia.
Qed.

(** Paging loses no message and shows none twice: for a channel whose
    messages were created in the order they are stored, the message at
    position (p-1)*s+k of the reverse order of creation, with 0 <= k < s, is
    the one at offset k of page p of size s, and that page is answered 200. *)
Theorem getMessages_position c w ch p s k m :
  param c !! "channelId" = Some ch → isValid ch = true →
  parseInt (or_default (query c !! "page") "1") = Num p → 1 ≤ p →
  parseInt (or_default (query c !! "limit") "50") = Num s →
  0 ≤ k < s →
  created_in_order (channel_messages (canonical ch) w) →
  reverse (channel_messages (canonical ch) w) !! Z.to_nat ((p - 1) * s + k)
  = Some m →
  status (respond (getMessagesByChannelId c) w).1 = 200 ∧
  returned_ids (respond (getMessagesByChannelId c) w).1 !! Z.to_nat k
  = Some (msg_id m).
Proof.
  intros Hp Hv Hpage Hp1 Hlimit Hk Horder Hm.
  rewrite (getMessagesByChannelId_run c w ch p s) by (done || lia). simpl.
  rewrite sort_desc_in_order by done.
  rewrite <-(page_slice_lookup p s k) in Hm by done.
  destruct (decide (page_slice p s
                      (reverse (channel_messages (canonical ch) w)) = []))
    as [Hnil|_].
  - by rewrite Hnil in Hm.
  - split; [done|]. unfold returned_ids. simpl.
    by rewrite !list_lookup_fmap, Hm.
Qed.

Lemma getMessages_position_witness :
  let c := list_ctx idC {[ "page" := "2"; "limit" := "2" ]}%string in
  reverse (channel_messages idC sample_world) !! 3%nat = Some m2 ∧
  status (respond (getMessagesByChannelId c) sample_world).1 = 200 ∧
  returned_ids (respond (getMessagesByChannelId c) sample_world).1 !! 1%nat
  = Some (msg_id m2).
Proof.
  split; [reflexivity|].
  apply (getMessages_position
           (list_ctx idC {[ "page" := "2"; "limit" := "2" ]}%string)
           sample_world idC 2 2 1 m2);
    solve [reflexivity | lia | exact sample_in_order].
Defined.

(** A list request reads only: whatever it is and however it ends, the four
    collections are as they were and nothing is broadcast. *)
Theorem getMessages_reads_only c w :
  same_store w (respond (getMessagesByChannelId c) w).2 ∧
  emitted w (respond (getMessagesByChannelId c) w).2 = [].
Proof.
  unfold same_store. split_and!.
  all: unfold getMessagesByChannelId; unfold_act; crunch; trace_leaf; done.
Qed.

(** ** Who has reacted after a reaction request *)

Lemma spec_toggle_reacted (L : gmap string (gset ObjectId)) sym a sym' a' :
  (∃ s, spec_toggle L sym a !! sym' = Some s ∧ a' ∈ s)
  ↔ if decide (sym' = sym ∧ a' = a)
    then ¬ ∃ s, L !! sym = Some s ∧ a ∈ s
    else ∃ s, L !! sym' = Some s ∧ a' ∈ s.
Proof.
  unfold spec_toggle.
  destruct (decide (sym' = sym)) as [->|Hsym].
  - destruct (L !! sym) as [s|] eqn:Hs.
    + destruct (decide (a ∈ s)) as [Hin|Hnotin].
      * destruct (decide (s ∖ {[a]} = ∅)) as [Hempty|Hrest].
        -- rewrite lookup_delete_eq.
           destruct (decide (sym = sym ∧ a' = a)) as [[_ ->]|Hne].
           ++ split; [by intros (? & [=] & _)|]. intros []. eauto.
           ++ split; [by intros (? & [=] & _)|]. intros (s' & [= <-] & Ha').
              assert (a' ∈ s ∖ {[a]}) as Hd.
              { apply elem_of_difference. split; [done|].
                rewrite elem_of_singleton. naive_solver. }
              rewrite Hempty in Hd. by apply elem_of_empty in Hd.
        -- rewrite lookup_insert_eq.
           destruct (decide (sym = sym ∧ a' = a)) as [[_ ->]|Hne].
           ++ split; [|intros []; eauto]. intros (s' & [= <-] & Hd).
              apply elem_of_difference in Hd as [_ Hd].
              by rewrite elem_of_singleton in Hd.
           ++ split.
              ** intros (s' & [= <-] & [Hd _]%elem_of_difference). eauto.
              ** intros (s' & [= <-] & Ha'). eexists. split; [done|].
                 apply elem_of_difference. split; [done|].
                 rewrite elem_of_singleton. naive_solver.
      * rewrite lookup_insert_eq.
        destruct (decide (sym = sym ∧ a' = a)) as [[_ ->]|Hne].
        -- split; [by intros _ (s' & [= <-] & ?)|]. intros _.
           eexists. split; [done|]. apply elem_of_union. right.
           by apply elem_of_singleton.
        -- split.
           ++ intros (s' & [= <-] & [Hd|Hd%elem_of_singleton]%elem_of_union);
                [eauto|naive_solver].
           ++ intros (s' & [= <-] & Ha'). eexists. split; [done|].
              apply elem_of_union. by left.
    + rewrite lookup_insert_eq.
      destruct (decide (sym = sym ∧ a' = a)) as [[_ ->]|Hne].
      * split; [by intros _ (? & [=] & _)|]. intros _.
        eexists. split; [done|]. by apply elem_of_singleton.
      * split; [|by intros (? & [=] & _)].
        intros (s' & [= <-] & Hd%elem_of_singleton). naive_solver.
  - destruct (decide (sym' = sym ∧ a' = a)) as [[? _]|_]; [done|].
    destruct (L !! sym) as [s|];
      [destruct (decide (a ∈ s));
       [destruct (decide (s ∖ {[a]} = ∅))|]|].
    + by rewrite lookup_delete_ne.
    + by rewrite lookup_insert_ne.
    + by rewrite lookup_insert_ne.
    + by rewrite lookup_insert_ne.
Qed.

(** A well-formed reaction request on an existing message, with the actor id
    sent in the spelling of the store (lower case), on a stored reaction
    array that has one entry per symbol and no actor twice in an entry: the
    request flips the actor's reaction with the symbol (the actor has reacted
    with it afterwards exactly when it had not before) and changes no other
    reaction: every other pair of a symbol and an actor is a reaction
    afterwards exactly when it was before. *)
Theorem toggleReaction_flips c w messageId feed m a :
  param c !! "messageId" = Some messageId → isValid messageId = true →
  b_conversationId (json c) = Some feed → isValid feed = true →
  b_user (json c) = Some (mkUserRef (Some a)) → isValid a = true →
  canonical a = a →
  List.find (has_id (canonical messageId)) (messageColl w) = Some m →
  ledger_wf (reactions m) →
  ∃ m', List.find (has_id (canonical messageId))
                  (messageColl (respond (toggleReaction c) w).2) = Some m' ∧
    (reacted (reactions m') (b_emoji (json c)) a
     ↔ ¬ reacted (reactions m) (b_emoji (json c)) a) ∧
    ∀ sym' a', ¬ (sym' = b_emoji (json c) ∧ a' = a) →
      (reacted (reactions m') sym' a' ↔ reacted (reactions m) sym' a').
Proof.
  intros Hp Hv Hc Hvc Hu Ha Hcan Hm Hwf.
  destruct (toggleReaction_stored c w messageId feed m a)
    as (rs' & Ht%toggle_toggled & Hfind & _); [done..|].
  rewrite Hcan in Ht.
  exists (set_updatedAt (set_reactions m rs') (now w)).
  split; [done|]. simpl. unfold reacted.
  rewrite (toggled_refines _ _ _ _ Ht Hwf). split.
  - rewrite spec_toggle_reacted. by rewrite decide_True.
  - intros sym' a' Hne. rewrite spec_toggle_reacted. by rewrite decide_False.
Qed.

Lemma toggleReaction_flips_witness :
  let c := reaction_ctx (msg_id m1) "thumbsup" idS idC in
  canonical idS = idS ∧ ledger_wf (reactions reacted_message) ∧
  reacted (reactions reacted_message) "thumbsup" idS ∧
  ∃ m', List.find (has_id (msg_id m1))
                  (messageColl (respond (toggleReaction c) reacted_world).2)
        = Some m' ∧
    (reacted (reactions m') "thumbsup" idS
     ↔ ¬ reacted (reactions reacted_message) "thumbsup" idS) ∧
    ∀ sym' a', ¬ (sym' = "thumbsup"%string ∧ a' = idS) →
      (reacted (reactions m') sym' a'
       ↔ reacted (reactions reacted_message) sym' a').
Proof.
  split; [reflexivity|]. split; [exact reacted_message_wf|]. split.
  - exists {[ idS ]}. split; [reflexivity|]. by apply elem_of_singleton.
  - apply (toggleReaction_flips
             (reaction_ctx (msg_id m1) "thumbsup" idS idC) reacted_world
             (msg_id m1) idC reacted_message idS);
      solve [reflexivity | exact reacted_message_wf].
Defined.

(** ** The sender sets of the channels *)

Lemma addToSet_NoDup x (l : list ObjectId) : NoDup l → NoDup (addToSet x l).
Proof.
  intros Hl. unfold addToSet. case_bool_decide; [done|].
  apply NoDup_app. split_and!; [done| |apply NoDup_singleton].
  intros y Hy ->%list_elem_of_singleton. done.
Qed.

Lemma addToSet_grows x (l : list ObjectId) : l ⊆ addToSet x l.
Proof.
  unfold addToSet. case_bool_decide; [done|].
  intros y Hy. apply elem_of_app. by left.
Qed.

(** Whatever request is served, the sender set of every channel stays free
    of duplicates and loses no member. *)
Theorem serve_senders r w resp w' :
  Forall (λ ch, NoDup (senders ch)) (channelColl w) →
  serve r w = Some (resp, w') →
  Forall (λ ch, NoDup (senders ch)) (channelColl w') ∧
  Forall2 (λ ch ch', senders ch ⊆ senders ch') (channelColl w)
          (channelColl w').
Proof.
  intros Hnd Hserve.
  apply (serve_all
           (λ out, Forall (λ ch, NoDup (senders ch)) (channelColl out.2) ∧
                   Forall2 (λ ch ch', senders ch ⊆ senders ch') (channelColl w)
                           (channelColl out.2))
           r w (resp, w') Hserve).
  intros c _.
  assert (∀ w1, (channelColl w1 = channelColl w
             ∨ (∃ ch msg snd, channelColl w1
                  = update_first (is_channel ch) (index_created msg snd)
                                 (channelColl w))
             ∨ (∃ msg, channelColl w1
                  = update_first (lists_message msg) (index_deleted msg)
                                 (channelColl w))) →
            Forall (λ ch, NoDup (senders ch)) (channelColl w1) ∧
            Forall2 (λ ch ch', senders ch ⊆ senders ch') (channelColl w)
                    (channelColl w1)) as Hkeep.
  { intros w1 [-> | [(ch & msg & snd & ->) | (msg & ->)]].
    - split; [done|]. apply Forall_Forall2_diag, Forall_forall. by intros.
    - split.
      + apply Forall_update_first; [done|]. intros x Hx _. simpl.
        apply addToSet_NoDup. eapply Forall_forall in Hnd; [|exact Hx]. done.
      + apply Forall2_update_first; [done|]. intros x. apply addToSet_grows.
    - split.
      + apply Forall_update_first; [done|]. intros x Hx _. simpl.
        eapply Forall_forall in Hnd; [|exact Hx]. done.
      + by apply Forall2_update_first. }
  pose proof (handlers_channels c w) as Hch. simpl in Hch.
  destruct Hch as (H1 & H2 & H3 & H4 & H5). split_and!; by apply Hkeep.
Qed.

Lemma serve_senders_witness :
  let out := respond (createMessage (create_ctx idC "again" idS)) sample_world in
  serve (create_request idC "again" idS) sample_world = Some out ∧
  status out.1 = 201 ∧
  senders <$> channelColl out.2 = [[idS]] ∧
  Forall (λ ch, NoDup (senders ch)) (channelColl out.2) ∧
  Forall2 (λ ch ch', senders ch ⊆ senders ch') (channelColl sample_world)
          (channelColl out.2).
Proof.
  split; [reflexivity|]. split; [reflexivity|]. split; [reflexivity|].
  apply (serve_senders (create_request idC "again" idS) sample_world
           (respond (createMessage (create_ctx idC "again" idS))
                    sample_world).1).
  - simpl. repeat constructor; by_compute.
  - reflexivity.
Defined.

(** ** A delete with the actor bound, and what is left of the message *)

Lemma update_first_clears {A} (p : A → bool) (f : A → A) (l : list A) :
  NoDup l → (∀ x y, x ∈ l → y ∈ l → p x = true → p y = true → x = y) →
  (∀ x, p (f x) = false) →
  Forall (λ x, p x = false) (update_first p f l).
Proof.
  intros Hnd Huniq Hf. induction l as [|x l IH]; simpl; [constructor|].
  apply NoDup_cons in Hnd as [Hx Hnd].
  destruct (p x) eqn:Hpx.
  - constructor; [done|]. apply Forall_forall. intros y Hy.
    destruct (p y) eqn:Hpy; [|done].
    destruct Hx. rewrite (Huniq x y); [done|by left|by right|done..].
  - constructor; [done|]. apply IH; [done|].
    intros y z Hy Hz. apply Huniq; by right.
Qed.

(** When ids are unique (no message stored twice, one message per id, one
    channel listing the id), a delete request of the sender leaves no trace
    of the message: no message with the id is stored and no channel lists
    the id. *)
Theorem deleteMessage_author_gone c w messageId actor m ch :
  param c !! "messageId" = Some messageId → isValid messageId = true →
  param c !! "user" = Some actor → isValid actor = true →
  List.find (has_id (canonical messageId)) (messageColl w) = Some m →
  sender m = Some (canonical actor) → channel m = Some ch → io c = true →
  NoDup (messageColl w) →
  (∀ m', m' ∈ messageColl w → msg_id m' = canonical messageId → m' = m) →
  NoDup (channelColl w) →
  (∀ x y, x ∈ channelColl w → y ∈ channelColl w →
     canonical messageId ∈ messages x → canonical messageId ∈ messages y →
     x = y) →
  status (respond (deleteMessage c) w).1 = 200 ∧
  List.find (has_id (canonical messageId))
            (messageColl (respond (deleteMessage c) w).2)
  = None ∧
  Forall (λ ch, canonical messageId ∉ messages ch)
         (channelColl (respond (deleteMessage c) w).2).
Proof.
  intros Hp Hv Hu Hva Hfind Hs Hch Hio Hnd Huniq Hndc Huniqc.
  rewrite (deleteMessage_author c w messageId actor m ch) by done. simpl.
  split_and!; [done|by eapply remove_first_gone|].
  eapply Forall_impl.
  - apply (update_first_clears
             (λ ch, bool_decide (canonical messageId ∈ messages ch)));
      [done| |].
    + intros x y Hx Hy Hpx%bool_decide_eq_true Hpy%bool_decide_eq_true.
      by apply Huniqc.
    + intros x. apply bool_decide_eq_false. simpl. apply pull_gone.
  - intros x Hx. by apply bool_decide_eq_false in Hx.
Qed.

Lemma deleteMessage_author_gone_witness :
  let c := actor_ctx "user" (msg_id m3) idS no_body in
  status (respond (deleteMessage c) sample_world).1 = 200 ∧
  List.find (has_id (msg_id m3))
            (messageColl (respond (deleteMessage c) sample_world).2) = None ∧
  Forall (λ ch, msg_id m3 ∉ messages ch)
         (channelColl (respond (deleteMessage c) sample_world).2).
Proof.
  apply (deleteMessage_author_gone
           (actor_ctx "user" (msg_id m3) idS no_body) sample_world
           (msg_id m3) idS m3 idC); try reflexivity.
  - by_compute.
  - intros m' Hm' Hid. simpl in Hm'.
    repeat (apply elem_of_cons in Hm' as [->|Hm']; [done|]).
    by apply elem_of_nil in Hm'.
  - by_compute.
  - intros x y Hx Hy _ _. simpl in Hx, Hy.
    apply list_elem_of_singleton in Hx, Hy. congruence.
Defined.

(** ** The handlers when every check passes *)

(** A delete request whose actor parameter names the sender of the message:
    the message is removed from the collection, the deletion is broadcast to
    the room of its channel with the message id as payload, the id is pulled
    from the first channel that lists it, and the answer is 200. *)
Theorem deleteMessage_by_sender c w messageId actor m ch :
  param c !! "messageId" = Some messageId → isValid messageId = true →
  param c !! "user" = Some actor → isValid actor = true →
  List.find (has_id (canonical messageId)) (messageColl w) = Some m →
  sender m = Some (canonical actor) → channel m = Some ch → io c = true →
  respond (deleteMessage c) w
  = (mkResponse (JInfo "Message deleted successfully") 200,
     mkWorld (remove_first (has_id (canonical messageId)) (messageColl w))
             (update_first (lists_message (canonical messageId))
                           (index_deleted (canonical messageId))
                           (channelColl w))
             (serverColl w) (userColl w) (now w) (freshId w)
             (trace w ++ [MessageQuery (canonical messageId);
                          MessageRemove (canonical messageId);
                          Emit ch "messageDeleted" (PId messageId);
                          ChannelPull (canonical messageId)])).
Proof.
  intros Hp Hv Hu Hva Hfind Hs Hch Hio.
  unfold lists_message, index_deleted.
  apply (deleteMessage_run c w messageId m m ch); try done.
  - intros u. rewrite Hu. by intros [= <-].
  - rewrite Hu. apply (find_stronger (has_id (canonical messageId))); [done| |].
    + destruct (find_has_id _ _ _ Hfind) as [_ Hid]. unfold owned_by, has_id.
      by rewrite !bool_decide_eq_true_2.
    + unfold owned_by. by intros y [? _]%andb_true_iff.
Qed.

Lemma deleteMessage_by_sender_witness :
  respond (deleteMessage (actor_ctx "user" (msg_id m3) idS no_body))
          sample_world
  = (mkResponse (JInfo "Message deleted successfully") 200,
     mkWorld [m1; m2; m4; m5]
             [mkChannel idC idSrv (msg_id <$> [m1; m2; m4; m5]) [idS]]
             sample_servers sample_users 100 idNew
             [MessageQuery (msg_id m3); MessageRemove (msg_id m3);
              Emit idC "messageDeleted" (PId (msg_id m3));
              ChannelPull (msg_id m3)]).
Proof.
  apply (deleteMessage_by_sender (actor_ctx "user" (msg_id m3) idS no_body)
           sample_world (msg_id m3) idS m3 idC);
    reflexivity.
Defined.

(** A delete request whose actor parameter is a well-formed id that is not
    the sender of the message is answered 403; the message, the channel list
    and everything else stay as they are and nothing is broadcast. *)
Theorem deleteMessage_by_other c w messageId actor :
  param c !! "messageId" = Some messageId → isValid messageId = true →
  param c !! "user" = Some actor → isValid actor = true →
  (∀ m, m ∈ messageColl w → msg_id m = canonical messageId →
     sender m ≠ Some (canonical actor)) →
  respond (deleteMessage c) w
  = (mkResponse (JError "You do not have permission to delete messages") 403,
     log_effect (MessageQuery (canonical messageId)) w).
Proof.
  intros Hp Hv Hu Hva Hother. apply deleteMessage_refused; [done..| |].
  - intros u. rewrite Hu. by intros [= <-].
  - rewrite Hu. apply find_none_intro. intros m Hm. unfold owned_by, has_id.
    destruct (bool_decide_reflect (msg_id m = canonical messageId)) as [Hid|];
      [|done].
    simpl. apply bool_decide_eq_false. by apply Hother.
Qed.

Lemma deleteMessage_by_other_witness :
  sender m3 = Some idS ∧
  respond (deleteMessage (actor_ctx "user" (msg_id m3) idU no_body))
          sample_world
  = (mkResponse (JError "You do not have permission to delete messages") 403,
     log_effect (MessageQuery (msg_id m3)) sample_world).
Proof.
  split; [reflexivity|].
  apply (deleteMessage_by_other (actor_ctx "user" (msg_id m3) idU no_body)
           sample_world (msg_id m3) idU); try reflexivity.
  intros m Hm _. simpl in Hm.
  repeat (apply elem_of_cons in Hm as [->|Hm]; [done|]).
  by apply elem_of_nil in Hm.
Defined.

(** An update request whose actor parameter names the sender of the message,
    with a non-empty content: the content is rewritten and the last-modified
    time set to the time of the request, everything else of the message is
    kept, the updated message is broadcast to the room of its channel and
    returned with 200. *)
Theorem updateMessage_by_sender c w messageId actor text m ch :
  param c !! "messageId" = Some messageId → isValid messageId = true →
  param c !! "userId" = Some actor → isValid actor = true →
  b_content (json c) = Some text → text ≠ EmptyString →
  List.find (has_id (canonical messageId)) (messageColl w) = Some m →
  sender m = Some (canonical actor) → channel m = Some ch → io c = true →
  respond (updateMessage c) w
  = (mkResponse (JMessage (set_content m text (now w))) 200,
     mkWorld (update_first (has_id (canonical messageId))
                (λ _, set_content m text (now w)) (messageColl w))
             (channelColl w) (serverColl w) (userColl w) (now w) (freshId w)
             (trace w ++ [MessageQuery (canonical messageId);
                          MessageStore (set_content m text (now w));
                          Emit ch "messageUpdated"
                               (PMessage (set_content m text (now w)))])).
Proof.
  intros Hp Hv Hu Hva Hc Htext Hfind Hs Hch Hio.
  assert (List.find (owned_by (canonical messageId) (Some (canonical actor)))
                    (messageColl w) = Some m)
    as Hown.
  { apply (find_stronger (has_id (canonical messageId))); [done| |].
    - destruct (find_has_id _ _ _ Hfind) as [_ Hid]. unfold owned_by, has_id.
      by rewrite !bool_decide_eq_true_2.
    - unfold owned_by. by intros y [? _]%andb_true_iff. }
  assert (messageId ≠ EmptyString) as Hne by (by intros ->).
  unfold updateMessage. rewrite Hp, Hu, Hc. simpl.
  rewrite !bool_decide_eq_false_2 by done. rewrite Hv, Hva. simpl.
  unfold_act. rewrite Hv, Hva, Hio. simpl. rewrite Hown. simpl.
  rewrite Hfind. simpl. rewrite Hch. simpl.
  unfold log_effect, with_messages. simpl. by rewrite <-!app_assoc.
Qed.

Lemma updateMessage_by_sender_witness :
  respond (updateMessage
             (actor_ctx "userId" (msg_id m3) idS (content_body "hello" None)))
          sample_world
  = (mkResponse (JMessage (set_content m3 "hello" 100)) 200,
     mkWorld [m1; m2; set_content m3 "hello" 100; m4; m5]
             (channelColl sample_world) sample_servers sample_users 100 idNew
             [MessageQuery (msg_id m3);
              MessageStore (set_content m3 "hello" 100);
              Emit idC "messageUpdated"
                   (PMessage (set_content m3 "hello" 100))]).
Proof.
  apply (updateMessage_by_sender
           (actor_ctx "userId" (msg_id m3) idS (content_body "hello" None))
           sample_world (msg_id m3) idS "hello" m3 idC);
    solve [reflexivity | done].
Defined.

(** A reaction request with well-formed ids, a usable actor and the
    Socket.IO server set, on an existing message: the message is saved with
    its reaction array toggled and the time of the request as its
    last-modified time, the whole saved message is broadcast to the room the
    body names (not to the channel of the message), and the answer is 200. *)
Theorem toggleReaction_saved c w messageId feed m a rs' :
  param c !! "messageId" = Some messageId → isValid messageId = true →
  b_conversationId (json c) = Some feed → isValid feed = true →
  List.find (has_id (canonical messageId)) (messageColl w) = Some m →
  b_user (json c) = Some (mkUserRef (Some a)) →
  toggle (reactions m) (b_emoji (json c)) a = Some rs' →
  io c = true →
  respond (toggleReaction c) w
  = (mkResponse (JInfo "Reaction updated successfully") 200,
     mkWorld (update_first (has_id (canonical messageId))
                (λ _, set_updatedAt (set_reactions m rs') (now w))
                (messageColl w))
             (channelColl w) (serverColl w) (userColl w) (now w) (freshId w)
             (trace w ++ [MessageQuery (canonical messageId);
                          MessageStore
                            (set_updatedAt (set_reactions m rs') (now w));
                          Emit feed "reactionUpdated"
                               (PMessage
                                  (set_updatedAt (set_reactions m rs')
                                                 (now w)))])).
Proof.
  intros Hp Hv Hc Hvc Hm Hu Ht Hio.
  rewrite (toggleReaction_run c w messageId feed m a rs') by done.
  rewrite Hio. unfold log_effect, with_messages. simpl.
  by rewrite <-!app_assoc.
Qed.

Lemma toggleReaction_saved_witness :
  let c := reaction_ctx (msg_id m1) "heart" idS idSrv in
  let m' := mkMessage (msg_id m1) (Some idC) (Some idS) "hi"
                      [mkReaction "heart" [idS]] 1 100 in
  updatedAt m1 = 1 ∧ now sample_world = 100 ∧
  respond (toggleReaction c) sample_world
  = (mkResponse (JInfo "Reaction updated successfully") 200,
     mkWorld [m'; m2; m3; m4; m5] (channelColl sample_world) sample_servers
             sample_users 100 idNew
             [MessageQuery (msg_id m1); MessageStore m';
              Emit idSrv "reactionUpdated" (PMessage m')]).
Proof.
  split; [reflexivity|]. split; [reflexivity|].
  apply (toggleReaction_saved (reaction_ctx (msg_id m1) "heart" idS idSrv)
           sample_world (msg_id m1) idSrv m1 idS [mkReaction "heart" [idS]]);
    reflexivity.
Defined.

Lemma reachable_ledgers_ok_witness :
  let w1 :=
    (respond (createMessage (create_ctx idC "hello" idS))
             empty_channel_world).2 in
  let w2 :=
    (respond (toggleReaction (reaction_ctx idNew "heart" idS_upper idC))
             w1).2 in
  reactions <$> messageColl w2 = [[mkReaction "heart" [idS]]] ∧
  reachable w2 ∧ ledgers_ok w2.
Proof.
  split; [by vm_compute|].
  assert (reachable
            (respond (toggleReaction (reaction_ctx idNew "heart" idS_upper idC))
               (respond (createMessage (create_ctx idC "hello" idS))
                        empty_channel_world).2).2) as Hreach.
  { apply (reachable_serve (reaction_request idNew "heart" idS_upper idC)
             (respond (createMessage (create_ctx idC "hello" idS))
                      empty_channel_world).2
             (respond (toggleReaction
                         (reaction_ctx idNew "heart" idS_upper idC))
                (respond (createMessage (create_ctx idC "hello" idS))
                         empty_channel_world).2).1);
      [|by vm_compute].
    apply (reachable_serve (create_request idC "hello" idS)
             empty_channel_world
             (respond (createMessage (create_ctx idC "hello" idS))
                      empty_channel_world).1);
      [|by vm_compute].
    by apply reachable_start. }
  split; [exact Hreach|]. exact (reachable_ledgers_ok _ Hreach).
Defined.
